(** * LeCroy 9300 sweep script: a shallow embedding of [main.py]

    The script drives a JDS6600 signal generator downwards through a
    frequency range and, at every step, asks a LeCroy 9300 oscilloscope
    over RS-232 for the measured frequency and amplitude.

    The development has three layers:
    - the Python built-ins the script relies on ([range], [bytes.decode],
      [str.strip], [str.split], [float]), over code points and binary64;
    - the instrument query layer ([parse_frequency], [get_freq],
      [get_ampl], [send_query]) in a small exception-and-trace monad;
    - the sweep loop of [main]. *)

From Stdlib Require Import ZArith List Bool Lia QArith.
From Stdlib Require Import Strings.String Strings.Byte.
From Stdlib Require Import Floats.SpecFloat.
Import ListNotations.

Local Open Scope Z_scope.

(** ** Python built-ins *)

Module Py.

(** [range(start, stop, step)] for a non-zero step, as CPython computes
    its length. *)
Definition range_len (start stop step : Z) : Z :=
  if 0 <? step then
    (if start <? stop then (stop - start - 1) / step + 1 else 0)
  else
    (if stop <? start then (start - stop - 1) / (- step) + 1 else 0).

Definition range (start stop step : Z) : list Z :=
  map (fun k => start + Z.of_nat k * step)
      (seq 0 (Z.to_nat (range_len start stop step))).

(** A [bytes] object, and a [str] as its sequence of code points. *)
Definition bytes := list byte.
Definition str := list Z.

Definition byte_val (b : byte) : Z := Z.of_N (Byte.to_N b).

(** An ASCII literal as a [str] and as [bytes]. *)
Definition lit (s : string) : str := map byte_val (list_byte_of_string s).
Definition blit (s : string) : bytes := list_byte_of_string s.

Definition CR : byte := x0d.

Definition in_range (lo hi c : Z) : bool := (lo <=? c) && (c <=? hi).

(** *** [bytes.decode()]: strict UTF-8 *)

Definition is_cont (b : Z) : bool := in_range 128 191 b.

Fixpoint utf8_decode (bs : list Z) : option str :=
  match bs with
  | [] => Some []
  | b0 :: r0 =>
      if b0 <? 128 then option_map (cons b0) (utf8_decode r0)
      else if in_range 194 223 b0 then
        match r0 with
        | b1 :: r1 =>
            if is_cont b1
            then option_map (cons ((b0 - 192) * 64 + (b1 - 128)))
                            (utf8_decode r1)
            else None
        | _ => None
        end
      else if in_range 224 239 b0 then
        match r0 with
        | b1 :: b2 :: r2 =>
            let lo := if b0 =? 224 then 160 else 128 in
            let hi := if b0 =? 237 then 159 else 191 in
            if in_range lo hi b1 && is_cont b2
            then option_map
                   (cons ((b0 - 224) * 4096 + (b1 - 128) * 64 + (b2 - 128)))
                   (utf8_decode r2)
            else None
        | _ => None
        end
      else if in_range 240 244 b0 then
        match r0 with
        | b1 :: b2 :: b3 :: r3 =>
            let lo := if b0 =? 240 then 144 else 128 in
            let hi := if b0 =? 244 then 143 else 191 in
            if in_range lo hi b1 && is_cont b2 && is_cont b3
            then option_map
                   (cons ((b0 - 240) * 262144 + (b1 - 128) * 4096
                          + (b2 - 128) * 64 + (b3 - 128)))
                   (utf8_decode r3)
            else None
        | _ => None
        end
      else None
  end.

(** [None] stands for [UnicodeDecodeError]. *)
Definition decode (b : bytes) : option str := utf8_decode (map byte_val b).

(** *** [str.encode()]: UTF-8; [None] stands for [UnicodeEncodeError]
    (a surrogate code point). *)

Definition byte_of_Z (z : Z) : byte :=
  match Byte.of_N (Z.to_N z) with Some b => b | None => x00 end.

Definition utf8_encode_char (c : Z) : option (list Z) :=
  if c <? 0 then None
  else if c <? 128 then Some [c]
  else if c <? 2048 then Some [192 + c / 64; 128 + c mod 64]
  else if in_range 55296 57343 c then None
  else if c <? 65536 then
    Some [224 + c / 4096; 128 + (c / 64) mod 64; 128 + c mod 64]
  else if c <? 1114112 then
    Some [240 + c / 262144; 128 + (c / 4096) mod 64;
          128 + (c / 64) mod 64; 128 + c mod 64]
  else None.

Fixpoint encode (s : str) : option bytes :=
  match s with
  | [] => Some []
  | c :: r =>
      match utf8_encode_char c, encode r with
      | Some bs, Some rest => Some (map byte_of_Z bs ++ rest)
      | _, _ => None
      end
  end.

(** *** Whitespace, [str.strip()], [str.split(sep)], [str.split()] *)

(** [str.isspace] on one code point. *)
Definition isspace (c : Z) : bool :=
  in_range 9 13 c || in_range 28 32 c || (c =? 133) || (c =? 160)
  || (c =? 5760) || in_range 8192 8202 c || (c =? 8232) || (c =? 8233)
  || (c =? 8239) || (c =? 8287) || (c =? 12288).

Fixpoint lstrip (s : str) : str :=
  match s with
  | c :: r => if isspace c then lstrip r else s
  | [] => []
  end.

Definition rstrip (s : str) : str := rev (lstrip (rev s)).

Definition strip (s : str) : str := rstrip (lstrip s).

(** [s.split(sep)] for a one-character separator: empty fields are kept
    and the result is never empty. *)
Fixpoint split_on (sep : Z) (s : str) : list str :=
  match s with
  | [] => [[]]
  | c :: r =>
      if c =? sep then [] :: split_on sep r
      else match split_on sep r with
           | w :: ws => (c :: w) :: ws
           | [] => [[c]]
           end
  end.

(** [s.split()]: the maximal runs of non-whitespace characters. *)
Fixpoint split (s : str) : list str :=
  match s with
  | [] => []
  | c :: r =>
      if isspace c then split r
      else match r with
           | [] => [[c]]
           | d :: _ =>
               if isspace d then [c] :: split r
               else match split r with
                    | w :: ws => (c :: w) :: ws
                    | [] => [[c]]
                    end
           end
  end.

(** *** Floats: IEEE 754 binary64, as [SpecFloat] specifies it *)

Definition float := spec_float.
Definition prec : Z := 53.
Definition emax : Z := 1024.

(** The correctly rounded quotient [n / d] of two positive integers, with
    the sign given apart (Python rounds to nearest, ties to even). *)
Definition of_ratio (neg : bool) (n d : Z) : float :=
  match n, d with
  | Zpos _, Zpos _ =>
      let '(mz, ez, lz) := SFdiv_core_binary prec emax n 0 d 0 in
      binary_round_aux prec emax neg mz ez lz
  | _, _ => S754_zero neg
  end.

(** The float nearest to [m * 10 ^ e], for [m >= 0]. *)
Definition of_decimal (neg : bool) (m e : Z) : float :=
  if 0 <=? e then of_ratio neg (m * 10 ^ e) 1
  else of_ratio neg m (10 ^ (- e)).

(** An [int] converted to [float]. *)
Definition of_int (z : Z) : float := of_ratio (z <? 0) (Z.abs z) 1.

(** The exact value of a finite float. *)
Definition to_Q (x : float) : option Q :=
  match x with
  | S754_zero _ => Some 0%Q
  | S754_finite s m e =>
      let n := if s then Zneg m else Zpos m in
      Some (if 0 <=? e then inject_Z (n * 2 ^ e)
            else Qmake n (Z.to_pos (2 ^ (- e))))
  | _ => None
  end.

Definition fabs : float -> float := SFabs.
Definition fsub : float -> float -> float := SFsub prec emax.

(** [x >= y] on floats; false when either side is a NaN. *)
Definition fge (x y : float) : bool := SFleb y x.
Definition fgt (x y : float) : bool := SFltb y x.

Definition is_zero (x : float) : bool :=
  match x with S754_zero _ => true | _ => false end.

(** [x / y] on floats: Python raises [ZeroDivisionError] on a zero
    divisor ([None] here) and divides as IEEE 754 otherwise. *)
Definition truediv (x y : float) : option float :=
  if is_zero y then None else Some (SFdiv prec emax x y).

(** *** [float(s)] on a [str] *)

(** The decimal digit value of a code point: the characters of Unicode
    category Nd come in runs of ten, listed here by their zero. *)
Definition decimal_zeros : list Z :=
  [48; 1632; 1776; 1984; 2406; 2534; 2662; 2790; 2918; 3046; 3174; 3302;
   3430; 3558; 3664; 3792; 3872; 4160; 4240; 6112; 6160; 6470; 6608; 6784;
   6800; 6992; 7088; 7232; 7248; 42528; 43216; 43264; 43472; 43504; 43600;
   44016; 65296; 66720; 68912; 69734; 69872; 69942; 70096; 70384; 70736;
   70864; 71248; 71360; 71472; 71904; 72016; 72784; 73040; 73120; 92768;
   92864; 93008; 120782; 120792; 120802; 120812; 120822; 123200; 123632;
   125264; 130032].

Definition decimal (c : Z) : option Z :=
  match find (fun z => in_range z (z + 9) c) decimal_zeros with
  | Some z => Some (c - z)
  | None => None
  end.

(** Before parsing, [float] maps every non-ASCII space to a blank, every
    non-ASCII decimal digit to its ASCII digit and anything else that is
    not ASCII to a question mark. *)
Definition to_ascii (c : Z) : Z :=
  if c <? 128 then c
  else if isspace c then 32
  else match decimal c with
       | Some d => 48 + d
       | None => 63
       end.

Definition is_c_space (c : Z) : bool := in_range 9 13 c || (c =? 32).

Fixpoint c_lstrip (s : str) : str :=
  match s with
  | c :: r => if is_c_space c then c_lstrip r else s
  | [] => []
  end.

Definition c_strip (s : str) : str := rev (c_lstrip (rev (c_lstrip s))).

Definition is_digit (c : Z) : bool := in_range 48 57 c.

(** Underscores are allowed between two digits only; they are removed
    before the number is read. [prev] is the previous character. *)
Fixpoint drop_underscores (prev : Z) (s : str) : option str :=
  match s with
  | [] => if prev =? 95 then None else Some []
  | c :: r =>
      if c =? 95 then
        (if is_digit prev then drop_underscores c r else None)
      else if (prev =? 95) && negb (is_digit c) then None
      else option_map (cons c) (drop_underscores c r)
  end.

(** The longest run of digits at the head of [s]: its value on top of
    [acc], the number of digits read on top of [n], and what follows. *)
Fixpoint read_digits (acc n : Z) (s : str) : Z * Z * str :=
  match s with
  | c :: r =>
      if is_digit c then read_digits (10 * acc + (c - 48)) (n + 1) r
      else (acc, n, s)
  | [] => (acc, n, [])
  end.

Definition read_sign (s : str) : bool * str :=
  match s with
  | 45 :: r => (true, r)
  | 43 :: r => (false, r)
  | _ => (false, s)
  end.

(** [digits [. digits] | . digits] then an optional exponent
    [(e|E) [sign] digits], the whole string: mantissa and power of ten. *)
Definition parse_decimal (s : str) : option (Z * Z) :=
  let '(ip, ni, s1) := read_digits 0 0 s in
  let '(m, nf, s2) :=
    match s1 with
    | 46 :: r => read_digits ip 0 r
    | _ => (ip, 0, s1)
    end in
  if ni + nf =? 0 then None
  else match s2 with
       | [] => Some (m, - nf)
       | c :: r =>
           if (c =? 101) || (c =? 69) then
             let '(eneg, r1) := read_sign r in
             let '(e, ne, r2) := read_digits 0 0 r1 in
             if ne =? 0 then None
             else match r2 with
                  | [] => Some (m, (if eneg then - e else e) - nf)
                  | _ => None
                  end
           else None
       end.

Definition ascii_lower (c : Z) : Z := if in_range 65 90 c then c + 32 else c.

Definition str_eqb (a b : str) : bool :=
  if list_eq_dec Z.eq_dec a b then true else false.

Definition float_of_ascii (s : str) : option float :=
  let '(neg, r) := read_sign s in
  let l := map ascii_lower r in
  if str_eqb l (lit "inf") || str_eqb l (lit "infinity")
  then Some (S754_infinity neg)
  else if str_eqb l (lit "nan") then Some S754_nan
  else match parse_decimal r with
       | Some (m, e) => Some (of_decimal neg m e)
       | None => None
       end.

(** [float(s)]; [None] stands for [ValueError]. *)
Definition float_of_str (s : str) : option float :=
  match drop_underscores 0 (c_strip (map to_ascii s)) with
  | Some t => float_of_ascii t
  | None => None
  end.

End Py.

Import Py.

(** ** Exceptions, the serial line and the trace of a run *)

Inductive exn : Type :=
| TimeoutError (msg : string)
| ValueError (msg : string)
| UnicodeDecodeError
| UnicodeEncodeError
| IndexError
| ZeroDivisionError
| OverflowError
| RuntimeError (retries : Z) (cause : exn).

(** [isinstance(e, ValueError)]: the two Unicode errors are subclasses. *)
Definition is_ValueError (e : exn) : bool :=
  match e with
  | ValueError _ | UnicodeDecodeError | UnicodeEncodeError => true
  | _ => false
  end.

Definition is_TimeoutError (e : exn) : bool :=
  match e with
  | TimeoutError _ => true
  | _ => false
  end.

(** What a run does to the outside world, in order. *)
Inductive event : Type :=
| SerialOpen
| SerialResetInput
| SerialWrite (data : bytes)
| SerialRead (data : bytes)
| Sleep (secs : Q)
| PrintEcho (text : str)
| PrintResponse (text : str)
| PrintFailed (attempt : Z) (e : exn)
| GenOpen
| GenConnect
| GenSetFrequency (channel value : Z)
| Plot (xs ys : list float)
| PlotYlim0
| PlotYlabel (label : string)
| PlotXlabel (label : string)
| PlotShow.

Inductive result (A : Type) : Type :=
| Returns (a : A)
| Raises (e : exn).
Arguments Returns {A} a.
Arguments Raises {A} e.

(** A run starts from the serial line, given as the results that the
    successive [read_until] calls of this run produce (an empty result
    is a read that timed out; once the list is used up every read times
    out). It ends with a result, the reads still to come and the events
    it emitted. *)
Record run (A : Type) : Type :=
  Run { res : result A; rest : list bytes; trace : list event }.
Arguments Run {A} res rest trace.
Arguments res {A} r.
Arguments rest {A} r.
Arguments trace {A} r.

Definition M (A : Type) : Type := list bytes -> run A.

Definition ret {A} (a : A) : M A := fun rx => Run (Returns a) rx [].

Definition raise {A} (e : exn) : M A := fun rx => Run (Raises e) rx [].

Definition bind {A B} (m : M A) (k : A -> M B) : M B :=
  fun rx =>
    let r := m rx in
    match res r with
    | Returns a =>
        let r' := k a (rest r) in
        Run (res r') (rest r') (trace r ++ trace r')
    | Raises e => Run (Raises e) (rest r) (trace r)
    end.

Declare Scope py_scope.
Delimit Scope py_scope with py.
Notation "x <- m ;; k" := (bind m (fun x => k))
  (at level 61, m at next level, right associativity) : py_scope.
Notation "m ;; k" := (bind m (fun _ => k))
  (at level 61, right associativity) : py_scope.
Local Open Scope py_scope.

Definition emit (ev : event) : M unit := fun rx => Run (Returns tt) rx [ev].

(** A pure step that may raise. *)
Definition lift {A} (r : result A) : M A := fun rx => Run r rx [].

Definition or_raise {A} (o : option A) (e : exn) : M A :=
  match o with
  | Some a => ret a
  | None => raise e
  end.

(** [try: body / except <classes> as e: handler e]. *)
Definition try_except {A} (body : M A) (classes : exn -> bool)
    (handler : exn -> M A) : M A :=
  fun rx =>
    let r := body rx in
    match res r with
    | Returns a => r
    | Raises e =>
        if classes e then
          let r' := handler e (rest r) in
          Run (res r') (rest r') (trace r ++ trace r')
        else r
    end.

(** [serial.write(data)] *)
Definition serial_write (data : bytes) : M unit := emit (SerialWrite data).

(** [serial.read_until(b'\r')] *)
Definition serial_read_until : M bytes :=
  fun rx =>
    match rx with
    | [] => Run (Returns []) [] [SerialRead []]
    | line :: later => Run (Returns line) later [SerialRead line]
    end.

(** [serial.reset_input_buffer()] *)
Definition serial_reset_input_buffer : M unit := emit SerialResetInput.

(** [time.sleep(secs)], for [secs] an [int] or a finite [float], given by
    its value. CPython 3.11 first converts the argument to a count of
    nanoseconds in a signed 64-bit integer. For a [float] the product
    [secs * 1e9] is rounded to binary64, so the counts that pass are those
    that round into [-2^63 .. 2^63]: the exact product lies between
    [-(2^63 + 1024)] and [2^63 + 1024]; no [int] times [10^9] falls
    between the 64-bit range and these bounds. Outside, the call raises
    [OverflowError]. A product that rounds to [2^63] itself (from
    [2^63 - 512] on) passes the check and wraps to the most negative
    count. A negative count is then a [ValueError]. The sleep itself is
    left to the operating system, which is taken to accept it. *)
Definition sleep_ns (secs : Q) : Q := secs * 1000000000.

Definition sleep_error (secs : Q) : option exn :=
  if Qle_bool (- (9223372036854776832)) (sleep_ns secs)
     && Qle_bool (sleep_ns secs) 9223372036854776832
  then
    if Qle_bool 0 secs
       && negb (Qle_bool 9223372036854775296 (sleep_ns secs))
    then None
    else Some (ValueError "sleep length must be non-negative")
  else Some OverflowError.

Definition time_sleep (secs : Q) : M unit :=
  match sleep_error secs with
  | None => emit (Sleep secs)
  | Some e => raise e
  end.

(** [b.decode()] *)
Definition bytes_decode (b : bytes) : M str :=
  or_raise (decode b) UnicodeDecodeError.

(** [not b], for a [bytes] object. *)
Definition is_empty (b : bytes) : bool :=
  match b with
  | [] => true
  | _ => false
  end.

(** A float literal of the script. *)
Definition float_lit (s : string) : float :=
  match float_of_str (lit s) with
  | Some x => x
  | None => S754_nan
  end.

(** ** The instrument query layer *)

Definition parse_frequency (response : str) : result float :=
  let parts := split_on 44 response in
  if Z.of_nat (List.length parts) <? 2
  then Raises (ValueError "Unexpected response format")
  else
    match nth_error parts 1 with
    | None => Raises IndexError
    | Some field =>
        match split field with
        | [] => Raises IndexError
        | value_str :: _ =>
            match float_of_str value_str with
            | Some frequency => Returns frequency
            | None => Raises (ValueError "could not convert string to float")
            end
        end
    end.

Definition caught (e : exn) : bool := is_TimeoutError e || is_ValueError e.

Definition cmd_freq : bytes := blit "parameter_value? freq" ++ [CR].
Definition cmd_ampl : bytes := blit "parameter_value? ampl" ++ [CR].

(** The body of the [try] of [get_freq]. *)
Definition get_freq_try : M float :=
  serial_write cmd_freq ;;
  echo <- serial_read_until ;;
  (if is_empty echo then raise (TimeoutError "No echo received from scope")
   else ret tt) ;;
  echo_text <- bytes_decode echo ;;
  emit (PrintEcho (strip echo_text)) ;;
  response <- serial_read_until ;;
  (if is_empty response
   then raise (TimeoutError "No response received from scope")
   else ret tt) ;;
  response_text <- bytes_decode response ;;
  emit (PrintResponse (strip response_text)) ;;
  text <- bytes_decode response ;;
  lift (parse_frequency (strip text)).

Fixpoint get_freq_for (attempts : list Z) (retries : Z) (delay : Q)
  : M float :=
  match attempts with
  | [] => ret (float_lit "1.0")
  | attempt :: later =>
      try_except get_freq_try caught
        (fun e =>
           emit (PrintFailed attempt e) ;;
           if attempt <? retries
           then time_sleep delay ;; get_freq_for later retries delay
           else raise (RuntimeError retries e))
  end.

Definition get_freq (retries : Z) (delay : Q) : M float :=
  get_freq_for (range 1 (retries + 1) 1) retries delay.

(** The body of the [try] of [get_ampl]. *)
Definition get_ampl_try : M float :=
  serial_write cmd_ampl ;;
  echo <- serial_read_until ;;
  (if is_empty echo then raise (TimeoutError "No echo received from scope")
   else ret tt) ;;
  echo_text <- bytes_decode echo ;;
  emit (PrintEcho (strip echo_text)) ;;
  response <- serial_read_until ;;
  (if is_empty response
   then raise (TimeoutError "No response received from scope")
   else ret tt) ;;
  response_text <- bytes_decode response ;;
  emit (PrintResponse (strip response_text)) ;;
  text <- bytes_decode response ;;
  lift (parse_frequency (strip text)).

Fixpoint get_ampl_for (attempts : list Z) (retries : Z) (delay : Q)
  : M float :=
  match attempts with
  | [] => ret (float_lit "1.0")
  | attempt :: later =>
      try_except get_ampl_try caught
        (fun e =>
           emit (PrintFailed attempt e) ;;
           if attempt <? retries
           then time_sleep delay ;; get_ampl_for later retries delay
           else raise (RuntimeError retries e))
  end.

Definition get_ampl (retries : Z) (delay : Q) : M float :=
  get_ampl_for (range 1 (retries + 1) 1) retries delay.

Definition send_query (command : str) : M str :=
  serial_reset_input_buffer ;;
  data <- or_raise (encode command) UnicodeEncodeError ;;
  serial_write (data ++ [CR]) ;;
  echo <- serial_read_until ;;
  response <- serial_read_until ;;
  text <- bytes_decode response ;;
  ret (strip text).

(** ** The sweep controller *)

(** [x / y] on floats. *)
Definition float_truediv (x y : float) : M float :=
  or_raise (truediv x y) ZeroDivisionError.

(** [a / b] on ints: the correctly rounded quotient. *)
Definition int_truediv (a b : Z) : M float :=
  if b =? 0 then raise ZeroDivisionError
  else
    match of_ratio (xorb (a <? 0) (b <? 0)) (Z.abs a) (Z.abs b) with
    | S754_infinity _ => raise OverflowError
    | x => ret x
    end.

(** The variables of [main] that the loop updates. *)
Record sweep_state : Type :=
  { last_period : float; freq : list float; ampl : list float }.

(** One iteration of the [for] loop of [main], at step frequency [i]. *)
Definition sweep_step (threshold : float) (i : Z) (st : sweep_state)
  : M sweep_state :=
  emit (GenSetFrequency 2 i) ;;
  time_sleep (1 # 2) ;;
  f <- get_freq 3 (1 # 2) ;;
  let freq := freq st ++ [f] in
  a <- get_ampl 3 (1 # 2) ;;
  let ampl := ampl st ++ [a] in
  current_period <- float_truediv (float_lit "1.0") f ;;
  period_change <-
    float_truediv (fabs (fsub current_period (last_period st)))
                  (last_period st) ;;
  if fge period_change threshold then
    send_query (lit "aset") ;;
    time_sleep 5 ;;
    ret {| last_period := current_period; freq := freq; ampl := ampl |}
  else
    ret {| last_period := last_period st; freq := freq; ampl := ampl |}.

Fixpoint sweep_loop (threshold : float) (steps : list Z) (st : sweep_state)
  : M sweep_state :=
  match steps with
  | [] => ret st
  | i :: later =>
      st' <- sweep_step threshold i st ;;
      sweep_loop threshold later st'
  end.

Definition main : M unit :=
  emit SerialOpen ;;
  emit GenOpen ;;
  emit GenConnect ;;
  emit (GenSetFrequency 2 5000) ;;
  let min_freq := 1000 in
  let max_freq := 10000 in
  let step := 100 in
  let last_aset_freq := max_freq in
  last_period <- int_truediv 1 last_aset_freq ;;
  let threshold := float_lit "0.4" in
  emit (GenSetFrequency 2 max_freq) ;;
  send_query (lit "aset") ;;
  time_sleep 5 ;;
  st <- sweep_loop threshold (range max_freq min_freq (- step))
          {| last_period := last_period; freq := []; ampl := [] |} ;;
  emit (Plot (freq st) (ampl st)) ;;
  emit PlotYlim0 ;;
  emit (PlotYlabel "ampl") ;;
  emit (PlotXlabel "freq") ;;
  emit PlotShow.

(** ** Vocabulary of the statements *)

(** The two numeric queries, by the keyword they send. *)
Inductive param : Type := Freq | Ampl.

Definition command (p : param) : bytes :=
  match p with
  | Freq => cmd_freq
  | Ampl => cmd_ampl
  end.

Definition query_try (p : param) : M float :=
  match p with
  | Freq => get_freq_try
  | Ampl => get_ampl_try
  end.

Definition query (p : param) : Z -> Q -> M float :=
  match p with
  | Freq => get_freq
  | Ampl => get_ampl
  end.

(** A run with one more event in front. *)
Definition prepend {A} (ev : event) (r : run A) : run A :=
  Run (res r) (rest r) (ev :: trace r).

(** Projections of a trace. *)
Definition writes_of (t : list event) : list bytes :=
  flat_map (fun ev => match ev with SerialWrite d => [d] | _ => [] end) t.

Definition reads_of (t : list event) : list bytes :=
  flat_map (fun ev => match ev with SerialRead d => [d] | _ => [] end) t.

Definition sleeps_of (t : list event) : list Q :=
  flat_map (fun ev => match ev with Sleep d => [d] | _ => [] end) t.

Definition set_frequencies (t : list event) : list Z :=
  flat_map (fun ev => match ev with GenSetFrequency _ v => [v] | _ => [] end)
           t.

Definition plots_of (t : list event) : list (list float * list float) :=
  flat_map (fun ev => match ev with Plot xs ys => [(xs, ys)] | _ => [] end) t.

(** The writes and the sleeps of a trace, interleaved as they happened. *)
Definition io_shape (t : list event) : list (bytes + Q) :=
  flat_map (fun ev => match ev with
                      | SerialWrite d => [inl d]
                      | Sleep d => [inr d]
                      | _ => []
                      end) t.

(** The shape of [n] failed attempts, each followed by its delay. *)
Definition failed_rounds (cmd : bytes) (d : Q) (n : nat) : list (bytes + Q) :=
  List.concat (repeat [inl cmd; inr d] n).

Definition is_failure_report (ev : event) : bool :=
  match ev with
  | PrintFailed _ _ => true
  | _ => false
  end.

(** The retry loop over an arbitrary attempt; [get_freq_for] and
    [get_ampl_for] are its two instances. *)
Section Retry.
Variable body : M float.

Fixpoint retry_for (attempts : list Z) (retries : Z) (delay : Q)
  : M float :=
  match attempts with
  | [] => ret (float_lit "1.0")
  | attempt :: later =>
      try_except body caught
        (fun e =>
           emit (PrintFailed attempt e) ;;
           if attempt <? retries
           then time_sleep delay ;; retry_for later retries delay
           else raise (RuntimeError retries e))
  end.

(** The serial line after [n] attempts in a row. *)
Fixpoint after_attempts (n : nat) (rx : list bytes) : list bytes :=
  match n with
  | O => rx
  | S k => after_attempts k (rest (body rx))
  end.

(** The first [n] attempts each fail with an exception of a class that
    the [except] clause names. *)
Fixpoint all_fail (n : nat) (rx : list bytes) : bool :=
  match n with
  | O => true
  | S k =>
      match res (body rx) with
      | Raises e => caught e && all_fail k (rest (body rx))
      | Returns _ => false
      end
  end.
End Retry.

(** What one attempt does, read off the first two results of the line:
    the command is written, the echo is read and must be non-empty and
    decodable, then the same for the response, which is parsed. *)
Definition attempt_run (cmd : bytes) (rx : list bytes) : run float :=
  let echo := hd [] rx in
  let rx1 := tl rx in
  if is_empty echo then
    Run (Raises (TimeoutError "No echo received from scope")) rx1
        [SerialWrite cmd; SerialRead echo]
  else
    match decode echo with
    | None => Run (Raises UnicodeDecodeError) rx1
                  [SerialWrite cmd; SerialRead echo]
    | Some echo_text =>
        let response := hd [] rx1 in
        let rx2 := tl rx1 in
        let t := [SerialWrite cmd; SerialRead echo;
                  PrintEcho (strip echo_text); SerialRead response] in
        if is_empty response then
          Run (Raises (TimeoutError "No response received from scope")) rx2 t
        else
          match decode response with
          | None => Run (Raises UnicodeDecodeError) rx2 t
          | Some text =>
              Run (parse_frequency (strip text)) rx2
                  (t ++ [PrintResponse (strip text)])
          end
    end.

(** [SerialWrite cmd_freq] turned into [SerialWrite cmd_ampl]: the one
    difference allowed between a frequency query and an amplitude query. *)
Definition as_ampl (ev : event) : event :=
  match ev with
  | SerialWrite d =>
      if list_eq_dec Byte.byte_eq_dec d cmd_freq then SerialWrite cmd_ampl
      else ev
  | _ => ev
  end.

(** Two runs that agree on everything but the command written. *)
Definition mirrors {A} (a f : run A) : Prop :=
  res a = res f /\ rest a = rest f /\ trace a = map as_ampl (trace f).

(** The events a query may emit: writes of its own command, reads,
    delays and console lines. *)
Definition query_event (cmd : bytes) (ev : event) : bool :=
  match ev with
  | SerialWrite d => if list_eq_dec byte_eq_dec d cmd then true else false
  | SerialRead _ | Sleep _ | PrintEcho _ | PrintResponse _
  | PrintFailed _ _ => true
  | _ => false
  end.

(** [x] is finite and its exact value is the rational [q]. *)
Definition float_value_is (x : float) (q : Q) : Prop :=
  match to_Q x with
  | Some v => Qeq v q
  | None => False
  end.

Definition float_one : float := float_lit "1.0".

(** The drift rule in the words of the specification: the relative
    change [|1/f - P| / P] of the period, with Python's division (no value
    when [f] or [P] is zero), compared with the threshold. *)
Definition period_change (P f : float) : option float :=
  match truediv float_one f with
  | Some current => truediv (fabs (fsub current P)) P
  | None => None
  end.

Definition drift_exceeds (threshold P f : float) : bool :=
  match period_change P f with
  | Some change => fge change threshold
  | None => false
  end.

Definition aset_command : bytes := blit "aset" ++ [CR].

(** What [send_query("aset")] does. *)
Definition aset_run (rx : list bytes) : run str :=
  let response := hd [] (tl rx) in
  let t := [SerialResetInput; SerialWrite aset_command;
            SerialRead (hd [] rx); SerialRead response] in
  match decode response with
  | Some text => Run (Returns (strip text)) (tl (tl rx)) t
  | None => Run (Raises UnicodeDecodeError) (tl (tl rx)) t
  end.

(** What one sweep step does, laid out by the outcome of its two queries,
    of the two divisions and of the comparison with the threshold. *)
Definition step_run (threshold : float) (i : Z) (st : sweep_state)
    (rx : list bytes) : run sweep_state :=
  let t0 := [GenSetFrequency 2 i; Sleep (1 # 2)] in
  let r1 := get_freq 3 (1 # 2) rx in
  match res r1 with
  | Raises e => Run (Raises e) (rest r1) (t0 ++ trace r1)
  | Returns f =>
      let r2 := get_ampl 3 (1 # 2) (rest r1) in
      let t2 := t0 ++ trace r1 ++ trace r2 in
      match res r2 with
      | Raises e => Run (Raises e) (rest r2) t2
      | Returns a =>
          match truediv float_one f with
          | None => Run (Raises ZeroDivisionError) (rest r2) t2
          | Some current =>
              match period_change (last_period st) f with
              | None => Run (Raises ZeroDivisionError) (rest r2) t2
              | Some change =>
                  if fge change threshold then
                    let r3 := send_query (lit "aset") (rest r2) in
                    match res r3 with
                    | Raises e => Run (Raises e) (rest r3) (t2 ++ trace r3)
                    | Returns _ =>
                        Run (Returns {| last_period := current;
                                        freq := freq st ++ [f];
                                        ampl := ampl st ++ [a] |})
                            (rest r3) (t2 ++ trace r3 ++ [Sleep 5])
                    end
                  else
                    Run (Returns {| last_period := last_period st;
                                    freq := freq st ++ [f];
                                    ampl := ampl st ++ [a] |})
                        (rest r2) t2
              end
          end
      end
  end.

(** The events that are not calls of the plotting library. *)
Definition no_plot (ev : event) : bool :=
  match ev with
  | Plot _ _ | PlotYlim0 | PlotYlabel _ | PlotXlabel _ | PlotShow => false
  | _ => true
  end.

(** The exceptions with which a sweep step can end. *)
Definition step_exn (e : exn) : Prop :=
  e = UnicodeDecodeError \/ e = IndexError \/ e = ZeroDivisionError \/
  exists cause,
    e = RuntimeError 3 cause /\
    (is_TimeoutError cause || is_ValueError cause) = true.

(** What [main] does, laid out by the outcome of the first autoset and of
    the sweep loop. *)
Definition main_run (rx : list bytes) : run unit :=
  let pre := [SerialOpen; GenOpen; GenConnect; GenSetFrequency 2 5000;
              GenSetFrequency 2 10000] in
  let r0 := aset_run rx in
  match res r0 with
  | Raises e => Run (Raises e) (rest r0) (pre ++ trace r0)
  | Returns _ =>
      let rl := sweep_loop (float_lit "0.4") (range 10000 1000 (- (100)))
                  {| last_period := float_lit "0.0001";
                     freq := []; ampl := [] |} (rest r0) in
      match res rl with
      | Raises e =>
          Run (Raises e) (rest rl) (pre ++ trace r0 ++ Sleep 5 :: trace rl)
      | Returns st =>
          Run (Returns tt) (rest rl)
              (pre ++ trace r0 ++ Sleep 5 :: trace rl
                   ++ [Plot (freq st) (ampl st); PlotYlim0;
                       PlotYlabel "ampl"; PlotXlabel "freq"; PlotShow])
      end
  end.

(** What [send_query(command)] does, by whether the command encodes and
    the response decodes. *)
Definition query_line_run (command : str) (rx : list bytes) : run str :=
  match encode command with
  | None => Run (Raises UnicodeEncodeError) rx [SerialResetInput]
  | Some data =>
      let response := hd [] (tl rx) in
      Run (match decode response with
           | Some text => Returns (strip text)
           | None => Raises UnicodeDecodeError
           end)
          (tl (tl rx))
          [SerialResetInput; SerialWrite (data ++ [CR]);
           SerialRead (hd [] rx); SerialRead response]
  end.

(** The events of one sweep step and of one autoset on a line whose every
    read gives the same bytes [l], decoding to [text]. *)
Definition steady_events (l : bytes) (text : str) (i : Z) : list event :=
  [GenSetFrequency 2 i; Sleep (1 # 2);
   SerialWrite cmd_freq; SerialRead l; PrintEcho (strip text);
   SerialRead l; PrintResponse (strip text);
   SerialWrite cmd_ampl; SerialRead l; PrintEcho (strip text);
   SerialRead l; PrintResponse (strip text)].

Definition aset_events (l : bytes) : list event :=
  [SerialResetInput; SerialWrite aset_command; SerialRead l; SerialRead l;
   Sleep 5].

(** The events of a whole sweep on such a line: autoset can only follow
    the first step. *)
Definition steady_trace (l : bytes) (text : str) (steps : list Z)
    (triggered : bool) : list event :=
  match steps with
  | [] => []
  | i :: later =>
      steady_events l text i
        ++ (if triggered then aset_events l else [])
        ++ flat_map (steady_events l text) later
  end.

(** The longest delay for which the statements assert a sleep: [2^32]
    seconds. (The operating system refuses a sleep whose deadline lies
    beyond the range of its monotonic clock, some 292 years.) *)
Definition sleep_max : Q := 4294967296.

(** The step frequencies as the specification lists them. *)
Definition claimed_steps : list Z :=
  map (fun k => 9900 - 100 * Z.of_nat k) (seq 0 90).

(** A stub oscilloscope line, and a line of [n] such results. *)
Definition stub_line : bytes := blit "C1:PAVA FREQ,10.00175E+3 HZ,AV" ++ [CR].
Definition stub_rx (n : nat) : list bytes := repeat stub_line n.

(** * Properties *)

(** ** The monad *)

Lemma run_eta {A} (r : run A) : Run (res r) (rest r) (trace r) = r.
Proof. destruct r; reflexivity. Qed.

Lemma bind_ret {A B} (a : A) (k : A -> M B) rx : bind (ret a) k rx = k a rx.
Proof. unfold bind, ret. cbn. apply run_eta. Qed.

Lemma bind_raise {A B} (e : exn) (k : A -> M B) rx :
  bind (raise e) k rx = Run (Raises e) rx [].
Proof. reflexivity. Qed.

Lemma bind_emit {B} (ev : event) (k : unit -> M B) rx :
  bind (emit ev) k rx = prepend ev (k tt rx).
Proof. reflexivity. Qed.

Lemma bind_read {B} (k : bytes -> M B) rx :
  bind serial_read_until k rx =
  prepend (SerialRead (hd [] rx)) (k (hd [] rx) (tl rx)).
Proof. destruct rx; reflexivity. Qed.

Lemma bind_run {A B} (m : M A) (k : A -> M B) rx :
  bind m k rx =
  match res (m rx) with
  | Returns a =>
      let r := k a (rest (m rx)) in
      Run (res r) (rest r) (trace (m rx) ++ trace r)
  | Raises e => Run (Raises e) (rest (m rx)) (trace (m rx))
  end.
Proof. reflexivity. Qed.

(** ** One attempt *)

Opaque decode strip parse_frequency cmd_freq cmd_ampl.

Lemma query_try_run p rx : query_try p rx = attempt_run (command p) rx.
Proof.
  destruct p; unfold query_try, get_freq_try, get_ampl_try, attempt_run,
    serial_write, command.
  all: rewrite bind_emit, bind_read.
  all: destruct (is_empty (hd [] rx));
    [rewrite bind_raise; reflexivity | rewrite bind_ret].
  all: unfold bytes_decode at 1; destruct (decode (hd [] rx)) as [echo_text|];
    [cbn [or_raise]; rewrite bind_ret | reflexivity].
  all: rewrite bind_emit, bind_read.
  all: destruct (is_empty (hd [] (tl rx)));
    [rewrite bind_raise; reflexivity | rewrite bind_ret].
  all: unfold bytes_decode; destruct (decode (hd [] (tl rx))) as [text|];
    [cbn [or_raise]; rewrite bind_ret | reflexivity].
  all: rewrite bind_emit, bind_ret.
  all: reflexivity.
Qed.

(** ** [range] *)

Lemma range_nil a stop : stop <= a -> range a stop 1 = [].
Proof.
  intros H. unfold range, range_len. cbn [Z.ltb Z.compare].
  destruct (Z.ltb_spec a stop); [lia | reflexivity].
Qed.

Lemma range_cons a stop :
  a < stop -> range a stop 1 = a :: range (a + 1) stop 1.
Proof.
  intros H. unfold range, range_len. cbn [Z.ltb Z.compare].
  destruct (Z.ltb_spec a stop); [|lia].
  rewrite !Z.div_1_r.
  replace (Z.to_nat (stop - a - 1 + 1)) with (S (Z.to_nat (stop - a - 1)))
    by lia.
  destruct (Z.ltb_spec (a + 1) stop) as [Hlt|Hge].
  - replace (Z.to_nat (stop - (a + 1) - 1 + 1)) with (Z.to_nat (stop - a - 1))
      by lia.
    cbn [seq map]. f_equal; [lia|].
    rewrite <- seq_shift, map_map. apply map_ext. intros k. lia.
  - replace (Z.to_nat (stop - a - 1)) with O by lia.
    cbn. f_equal. lia.
Qed.

(** ** Projections of a trace *)

Lemma io_shape_app t1 t2 : io_shape (t1 ++ t2) = io_shape t1 ++ io_shape t2.
Proof. apply flat_map_app. Qed.

Lemma writes_of_app t1 t2 : writes_of (t1 ++ t2) = writes_of t1 ++ writes_of t2.
Proof. apply flat_map_app. Qed.

Lemma reads_of_app t1 t2 : reads_of (t1 ++ t2) = reads_of t1 ++ reads_of t2.
Proof. apply flat_map_app. Qed.

Lemma set_frequencies_app t1 t2 :
  set_frequencies (t1 ++ t2) = set_frequencies t1 ++ set_frequencies t2.
Proof. apply flat_map_app. Qed.

Lemma plots_of_app t1 t2 : plots_of (t1 ++ t2) = plots_of t1 ++ plots_of t2.
Proof. apply flat_map_app. Qed.

Lemma time_sleep_run d rx :
  sleep_error d = None -> time_sleep d rx = Run (Returns tt) rx [Sleep d].
Proof. intros H. unfold time_sleep. rewrite H. reflexivity. Qed.

Lemma time_sleep_raises d rx e :
  sleep_error d = Some e -> time_sleep d rx = Run (Raises e) rx [].
Proof. intros H. unfold time_sleep. rewrite H. reflexivity. Qed.

(** Delays from zero to [sleep_max] are slept. *)
Lemma sleep_accepts d :
  (0 <= d)%Q -> (d <= sleep_max)%Q -> sleep_error d = None.
Proof.
  intros H0 Hmax. unfold sleep_error, sleep_ns.
  assert (Hlo : (- (9223372036854776832) <= d * 1000000000)%Q).
  { destruct d as [n m]. unfold Qle in *. cbn in *. lia. }
  assert (Hhi : (d * 1000000000 <= 9223372036854776832)%Q).
  { destruct d as [n m]. unfold Qle, sleep_max in *. cbn in *. lia. }
  assert (Hw : Qle_bool 9223372036854775296 (d * 1000000000) = false).
  { destruct (Qle_bool _ _) eqn:E; [|reflexivity].
    apply Qle_bool_iff in E. exfalso.
    destruct d as [n m]. unfold Qle, sleep_max in *. cbn in *. lia. }
  rewrite (proj2 (Qle_bool_iff _ _) Hlo), (proj2 (Qle_bool_iff _ _) Hhi),
    (proj2 (Qle_bool_iff _ _) H0), Hw.
  reflexivity.
Qed.

(** A negative delay whose count of nanoseconds fits is refused as
    negative. *)
Lemma sleep_error_negative d :
  (- (9223372036) <= d)%Q -> (d < 0)%Q ->
  sleep_error d = Some (ValueError "sleep length must be non-negative").
Proof.
  intros Hlo Hneg. unfold sleep_error, sleep_ns.
  assert (H1 : (- (9223372036854776832) <= d * 1000000000)%Q).
  { destruct d as [n m]. unfold Qle, Qlt in *. cbn in *. lia. }
  assert (H2 : (d * 1000000000 <= 9223372036854776832)%Q).
  { destruct d as [n m]. unfold Qle, Qlt in *. cbn in *. lia. }
  assert (H3 : Qle_bool 0 d = false).
  { destruct (Qle_bool 0 d) eqn:E; [|reflexivity].
    apply Qle_bool_iff in E. exfalso. apply (Qlt_not_le _ _ Hneg E). }
  rewrite (proj2 (Qle_bool_iff _ _) H1), (proj2 (Qle_bool_iff _ _) H2), H3.
  reflexivity.
Qed.

(** A delay whose count of nanoseconds is beyond 64 bits overflows. *)
Lemma sleep_error_overflow d :
  (d <= - (9223372037))%Q \/ (9223372037 <= d)%Q ->
  sleep_error d = Some OverflowError.
Proof.
  intros Hout. unfold sleep_error, sleep_ns.
  destruct (Qle_bool (- (9223372036854776832)) (d * 1000000000)) eqn:E1;
    [|reflexivity].
  destruct (Qle_bool (d * 1000000000) 9223372036854776832) eqn:E2;
    [|reflexivity].
  apply Qle_bool_iff in E1, E2. exfalso.
  destruct d as [n m]. unfold Qle in *. cbn in *. lia.
Qed.

(** ** The retry loop, over any attempt that writes one command *)

Section RetryFacts.
Variable body : M float.
Variable cmd : bytes.
Hypothesis body_shape : forall rx, io_shape (trace (body rx)) = [inl cmd].

Lemma all_fail_le n m rx :
  (m <= n)%nat -> all_fail body n rx = true -> all_fail body m rx = true.
Proof.
  revert m rx. induction n as [|n IH]; intros m rx Hm H.
  - replace m with O by lia. reflexivity.
  - destruct m as [|m]; [reflexivity|].
    cbn [all_fail] in *. destruct (res (body rx)); [discriminate|].
    apply andb_true_iff in H as [Hc H]. rewrite Hc. cbn.
    apply IH; [lia | exact H].
Qed.

Lemma retry_step_returns a later R d rx v :
  res (body rx) = Returns v ->
  retry_for body (a :: later) R d rx = body rx.
Proof.
  intros H. cbn [retry_for]. unfold try_except. rewrite H. reflexivity.
Qed.

Lemma retry_step_escapes a later R d rx e :
  res (body rx) = Raises e -> caught e = false ->
  retry_for body (a :: later) R d rx = body rx.
Proof.
  intros H Hc. cbn [retry_for]. unfold try_except. rewrite H, Hc.
  reflexivity.
Qed.

Lemma retry_step_again a later R d rx e :
  res (body rx) = Raises e -> caught e = true -> a < R ->
  sleep_error d = None ->
  let r := retry_for body later R d (rest (body rx)) in
  retry_for body (a :: later) R d rx =
  Run (res r) (rest r)
      (trace (body rx) ++ [PrintFailed a e; Sleep d] ++ trace r).
Proof.
  intros H Hc Ha Hd r. cbn [retry_for]. unfold try_except.
  rewrite H, Hc. unfold bind at 1. cbn.
  destruct (Z.ltb_spec a R); [|lia].
  unfold bind. rewrite time_sleep_run by exact Hd. cbn. reflexivity.
Qed.

Lemma retry_step_last a later R d rx e :
  res (body rx) = Raises e -> caught e = true -> R <= a ->
  retry_for body (a :: later) R d rx =
  Run (Raises (RuntimeError R e)) (rest (body rx))
      (trace (body rx) ++ [PrintFailed a e]).
Proof.
  intros H Hc Ha. cbn [retry_for]. unfold try_except.
  rewrite H, Hc. unfold bind at 1. cbn.
  destruct (Z.ltb_spec a R); [lia|]. reflexivity.
Qed.

Lemma retry_succeeds F : forall a R d rx v,
  a + Z.of_nat F <= R -> sleep_error d = None ->
  all_fail body F rx = true ->
  res (body (after_attempts body F rx)) = Returns v ->
  let r := retry_for body (range a (R + 1) 1) R d rx in
  res r = Returns v /\
  rest r = rest (body (after_attempts body F rx)) /\
  io_shape (trace r) = failed_rounds cmd d F ++ [inl cmd].
Proof.
  induction F as [|F IH]; intros a R d rx v Ha Hd Hfail Hok r; subst r.
  - cbn [after_attempts] in Hok.
    rewrite range_cons by lia.
    rewrite (retry_step_returns _ _ _ _ _ _ Hok).
    cbn [after_attempts]. repeat split; [exact Hok | apply body_shape].
  - cbn [all_fail after_attempts] in *.
    destruct (res (body rx)) as [|e] eqn:Hres; [discriminate|].
    apply andb_true_iff in Hfail as [Hc Hfail].
    rewrite range_cons by lia.
    rewrite (retry_step_again _ _ _ _ _ _ Hres Hc) by (lia || exact Hd).
    cbn [res rest trace].
    destruct (IH (a + 1) R d (rest (body rx)) v) as (H1 & H2 & H3);
      [lia | exact Hd | exact Hfail | exact Hok |].
    repeat split; [exact H1 | exact H2 |].
    rewrite !io_shape_app, body_shape, H3. reflexivity.
Qed.

Lemma retry_exhausts n : forall a R d rx,
  R - a = Z.of_nat n -> sleep_error d = None ->
  all_fail body (S n) rx = true ->
  let r := retry_for body (range a (R + 1) 1) R d rx in
  exists cause,
    res (body (after_attempts body n rx)) = Raises cause /\
    res r = Raises (RuntimeError R cause) /\
    rest r = after_attempts body (S n) rx /\
    io_shape (trace r) = failed_rounds cmd d n ++ [inl cmd].
Proof.
  induction n as [|n IH]; intros a R d rx Ha Hd Hfail r; subst r.
  - cbn [all_fail after_attempts] in *.
    destruct (res (body rx)) as [|e] eqn:Hres; [discriminate|].
    apply andb_true_iff in Hfail as [Hc _].
    rewrite range_cons by lia.
    rewrite (retry_step_last _ _ _ _ _ _ Hres Hc) by lia.
    exists e. cbn [res rest trace]. repeat split.
    rewrite io_shape_app, body_shape. reflexivity.
  - remember (S n) as m. cbn [all_fail] in Hfail.
    destruct (res (body rx)) as [|e] eqn:Hres; [discriminate|].
    apply andb_true_iff in Hfail as [Hc Hfail]. subst m.
    rewrite range_cons by lia.
    rewrite (retry_step_again _ _ _ _ _ _ Hres Hc) by (lia || exact Hd).
    cbn [res rest trace].
    destruct (IH (a + 1) R d (rest (body rx))) as (cause & H0 & H1 & H2 & H3);
      [lia | exact Hd | exact Hfail |].
    exists cause. cbn [after_attempts]. repeat split; try assumption.
    rewrite !io_shape_app, body_shape, H3. reflexivity.
Qed.

End RetryFacts.

(** ** The two queries as instances of the retry loop *)

Lemma get_freq_for_retry attempts R d :
  forall rx, get_freq_for attempts R d rx = retry_for get_freq_try attempts R d rx.
Proof.
  induction attempts as [|a later IH]; intros rx; [reflexivity|].
  cbn [get_freq_for retry_for]. unfold try_except.
  generalize (get_freq_try rx) as r0. intros r0.
  destruct (res r0) as [v|e]; [reflexivity|].
  destruct (caught e); [|reflexivity].
  unfold bind, emit. cbn [res rest trace].
  destruct (a <? R); [|reflexivity].
  rewrite IH. reflexivity.
Qed.

Lemma get_ampl_for_retry attempts R d :
  forall rx, get_ampl_for attempts R d rx = retry_for get_ampl_try attempts R d rx.
Proof.
  induction attempts as [|a later IH]; intros rx; [reflexivity|].
  cbn [get_ampl_for retry_for]. unfold try_except.
  generalize (get_ampl_try rx) as r0. intros r0.
  destruct (res r0) as [v|e]; [reflexivity|].
  destruct (caught e); [|reflexivity].
  unfold bind, emit. cbn [res rest trace].
  destruct (a <? R); [|reflexivity].
  rewrite IH. reflexivity.
Qed.

Lemma query_retry p R d rx :
  query p R d rx = retry_for (query_try p) (range 1 (R + 1) 1) R d rx.
Proof.
  destruct p; [apply get_freq_for_retry | apply get_ampl_for_retry].
Qed.

Lemma query_try_shape p rx :
  io_shape (trace (query_try p rx)) = [inl (command p)].
Proof.
  rewrite query_try_run. unfold attempt_run.
  destruct (is_empty (hd [] rx)); [reflexivity|].
  destruct (decode (hd [] rx)); [|reflexivity].
  destruct (is_empty (hd [] (tl rx))); [reflexivity|].
  destruct (decode (hd [] (tl rx))); reflexivity.
Qed.

Lemma writes_of_shape t :
  writes_of t =
  flat_map (fun x => match x with inl d => [d] | inr _ => [] end) (io_shape t).
Proof.
  induction t as [|ev t IH]; [reflexivity|].
  destruct ev; cbn; try exact IH. f_equal. exact IH.
Qed.

Lemma sleeps_of_shape t :
  sleeps_of t =
  flat_map (fun x => match x with inl _ => [] | inr d => [d] end) (io_shape t).
Proof.
  induction t as [|ev t IH]; [reflexivity|].
  destruct ev; cbn; try exact IH. f_equal. exact IH.
Qed.

Lemma rounds_writes t cmd d n :
  io_shape t = failed_rounds cmd d n ++ [inl cmd] ->
  writes_of t = repeat cmd (S n) /\ sleeps_of t = repeat d n.
Proof.
  intros H. rewrite writes_of_shape, sleeps_of_shape, H. clear H.
  induction n as [|n [IHw IHs]]; [split; reflexivity|].
  unfold failed_rounds in *. cbn [repeat List.concat app flat_map] in *.
  rewrite IHw, IHs. split; reflexivity.
Qed.

(** ** The retry policy of the numeric queries *)



(** ** What the loop can return *)

Section RetryReturns.
Variable body : M float.

Lemma retry_step_caught a later R d rx e :
  res (body rx) = Raises e -> caught e = true ->
  let h := (emit (PrintFailed a e) ;;
            if a <? R then time_sleep d ;; retry_for body later R d
            else raise (RuntimeError R e)) (rest (body rx)) in
  retry_for body (a :: later) R d rx =
  Run (res h) (rest h) (trace (body rx) ++ trace h).
Proof.
  intros H Hc h. cbn [retry_for]. unfold try_except. rewrite H, Hc.
  reflexivity.
Qed.

(** Whenever the loop over [a .. R] returns a value, its last act was an
    attempt that returned this value: the value after the loop is never
    reached. *)
Lemma retry_returns_an_attempt n : forall a R d rx v,
  R - a = Z.of_nat n ->
  res (retry_for body (range a (R + 1) 1) R d rx) = Returns v ->
  exists rx0 pre,
    res (body rx0) = Returns v /\
    trace (retry_for body (range a (R + 1) 1) R d rx)
      = pre ++ trace (body rx0).
Proof.
  induction n as [|n IH]; intros a R d rx v Ha Hret.
  all: rewrite range_cons in * by lia.
  all: destruct (res (body rx)) as [v0|e] eqn:Hres.
  all: try (rewrite (retry_step_returns _ _ _ _ _ _ _ Hres) in *;
            exists rx, []; split; [congruence | reflexivity]).
  all: destruct (caught e) eqn:Hc;
    [| rewrite (retry_step_escapes _ _ _ _ _ _ _ Hres Hc) in Hret;
       congruence].
  - rewrite (retry_step_last _ _ _ _ _ _ _ Hres Hc) in Hret by lia.
    discriminate.
  - destruct (sleep_error d) as [err|] eqn:Hd.
    + rewrite (retry_step_caught _ _ _ _ _ _ Hres Hc) in Hret.
      cbn [res] in Hret. rewrite bind_emit in Hret.
      destruct (Z.ltb_spec a R); [|lia].
      unfold prepend, bind, time_sleep in Hret. rewrite Hd in Hret.
      discriminate.
    + rewrite (retry_step_again _ _ _ _ _ _ _ Hres Hc) in * by (lia || exact Hd).
      cbn [res trace] in *.
      destruct (IH (a + 1) R d (rest (body rx)) v) as (rx0 & pre & H1 & H2);
        [lia | exact Hret |].
      exists rx0, (trace (body rx) ++ [PrintFailed a e; Sleep d] ++ pre).
      split; [exact H1|]. rewrite H2, <- !app_assoc. reflexivity.
Qed.

End RetryReturns.

Lemma attempt_returns cmd rx v :
  res (attempt_run cmd rx) = Returns v ->
  exists t text,
    trace (attempt_run cmd rx) = t ++ [PrintResponse text] /\
    parse_frequency text = Returns v.
Proof.
  unfold attempt_run.
  destruct (is_empty (hd [] rx)); [discriminate|].
  destruct (decode (hd [] rx)); [|discriminate].
  destruct (is_empty (hd [] (tl rx))); [discriminate|].
  destruct (decode (hd [] (tl rx))) as [text|]; [|discriminate].
  cbn [res trace]. intros H. eexists. exists (strip text).
  split; [reflexivity | exact H].
Qed.

(** C9. With a retry count [R <= 0] either query returns the constant
    [1.0] at once: nothing is written, read or slept and nothing is
    raised. With [R >= 1] that value after the loop is unreachable: a run
    that returns has just printed a response whose parse is the returned
    value, and every other run raises. *)
Theorem query_fallback (p : param) (R : Z) (delay : Q) (rx : list bytes) :
  let r := query p R delay rx in
  (R <= 0 -> r = Run (Returns (float_lit "1.0")) rx []) /\
  (1 <= R ->
   (exists e, res r = Raises e) \/
   (exists v pre text,
      res r = Returns v /\
      trace r = pre ++ [PrintResponse text] /\
      parse_frequency text = Returns v)).
Proof.
  intros r. subst r. rewrite query_retry. split.
  - intros HR. rewrite range_nil by lia. reflexivity.
  - intros HR.
    destruct (res (retry_for (query_try p) (range 1 (R + 1) 1) R delay rx))
      as [v|e] eqn:Hres; [right | left; exists e; reflexivity].
    destruct (retry_returns_an_attempt (query_try p) (Z.to_nat (R - 1))
                1 R delay rx v) as (rx0 & pre & H1 & H2);
      [lia | exact Hres |].
    rewrite query_try_run in H1, H2.
    destruct (attempt_returns _ _ _ H1) as (t & text & Ht & Hp).
    exists v, (pre ++ t), text. repeat split; [|exact Hp].
    rewrite H2, Ht, app_assoc. reflexivity.
Qed.

(** With no retry allowed the line is left untouched; with three, the
    stub line answers at the first attempt. *)
Lemma query_fallback_witness :
  get_freq 0 (1 # 2) (stub_rx 2)
    = Run (Returns (float_lit "1.0")) (stub_rx 2) [] /\
  ((exists e, res (get_ampl 3 (1 # 2) (stub_rx 2)) = Raises e) \/
   (exists v pre text,
      res (get_ampl 3 (1 # 2) (stub_rx 2)) = Returns v /\
      trace (get_ampl 3 (1 # 2) (stub_rx 2)) = pre ++ [PrintResponse text] /\
      parse_frequency text = Returns v)).
Proof.
  split.
  - apply (proj1 (query_fallback Freq 0 (1 # 2) (stub_rx 2))). lia.
  - apply (proj2 (query_fallback Ampl 3 (1 # 2) (stub_rx 2))). lia.
Defined.

(** ** A blank second field *)

Transparent parse_frequency.

Lemma parse_blank_field text :
  2 <= Z.of_nat (List.length (split_on 44 text)) ->
  split (nth 1 (split_on 44 text) []) = [] ->
  parse_frequency text = Raises IndexError.
Proof.
  intros Hlen Hblank. unfold parse_frequency.
  destruct (Z.ltb_spec (Z.of_nat (List.length (split_on 44 text))) 2);
    [lia|].
  destruct (split_on 44 text) as [|first [|field more]];
    cbn [List.length] in Hlen; try lia.
  cbn [nth nth_error] in *. rewrite Hblank. reflexivity.
Qed.

Opaque parse_frequency.

(** C10. A response with at least two comma-fields whose second field
    holds no word makes [parse_frequency] raise [IndexError], which is
    neither a [TimeoutError] nor a [ValueError]. A query with retry count
    [R >= 1] that reads such a response after a proper echo therefore ends
    at its first attempt with that [IndexError]: one command written, no
    failure reported, no delay slept, no retry and no [RuntimeError]
    around it. *)
Theorem blank_field_escapes_retry (p : param) (R : Z) (delay : Q)
    (echo response : bytes) (later : list bytes) (echo_text text : str) :
  1 <= R ->
  echo <> [] -> decode echo = Some echo_text ->
  response <> [] -> decode response = Some text ->
  2 <= Z.of_nat (List.length (split_on 44 (strip text))) ->
  split (nth 1 (split_on 44 (strip text)) []) = [] ->
  let r := query p R delay (echo :: response :: later) in
  parse_frequency (strip text) = Raises IndexError /\
  caught IndexError = false /\
  res r = Raises IndexError /\
  rest r = later /\
  writes_of (trace r) = [command p] /\
  sleeps_of (trace r) = [] /\
  existsb is_failure_report (trace r) = false.
Proof.
  intros HR He Hde Hr Hdr Hlen Hblank r.
  pose proof (parse_blank_field _ Hlen Hblank) as Hparse.
  assert (Hrun : query_try p (echo :: response :: later) =
                 Run (Raises IndexError) later
                     [SerialWrite (command p); SerialRead echo;
                      PrintEcho (strip echo_text); SerialRead response;
                      PrintResponse (strip text)]).
  { rewrite query_try_run. unfold attempt_run. cbn [hd tl].
    destruct echo; [congruence|]. destruct response; [congruence|].
    cbn [is_empty]. rewrite Hde, Hdr, Hparse. reflexivity. }
  subst r. rewrite query_retry, range_cons by lia.
  rewrite (retry_step_escapes _ _ _ _ _ _ IndexError)
    by (try rewrite Hrun; reflexivity).
  rewrite Hrun. repeat split; try reflexivity; exact Hparse.
Qed.

(** The line [C1:PAVA , ,AV] after a proper echo. *)
Lemma blank_field_escapes_retry_witness :
  let r := get_freq 3 (1 # 2)
             [stub_line; blit "C1:PAVA , ,AV" ++ [CR]; stub_line] in
  parse_frequency (lit "C1:PAVA , ,AV") = Raises IndexError /\
  caught IndexError = false /\
  res r = Raises IndexError /\
  rest r = [stub_line] /\
  writes_of (trace r) = [cmd_freq] /\
  sleeps_of (trace r) = [] /\
  existsb is_failure_report (trace r) = false.
Proof.
  apply (blank_field_escapes_retry Freq 3 (1 # 2) stub_line
           (blit "C1:PAVA , ,AV" ++ [CR]) [stub_line]
           (lit "C1:PAVA FREQ,10.00175E+3 HZ,AV" ++ [13])
           (lit "C1:PAVA , ,AV" ++ [13])).
  - lia.
  - discriminate.
  - vm_compute. reflexivity.
  - discriminate.
  - vm_compute. reflexivity.
  - vm_compute. discriminate.
  - vm_compute. reflexivity.
Defined.

(** ** Frequency query against amplitude query *)

Lemma as_ampl_freq : as_ampl (SerialWrite cmd_freq) = SerialWrite cmd_ampl.
Proof.
  unfold as_ampl. destruct (list_eq_dec byte_eq_dec cmd_freq cmd_freq);
    [reflexivity | congruence].
Qed.

Lemma attempt_mirrors rx :
  mirrors (attempt_run cmd_ampl rx) (attempt_run cmd_freq rx).
Proof.
  unfold mirrors, attempt_run.
  destruct (is_empty (hd [] rx));
    [cbn [res rest trace map]; rewrite as_ampl_freq; auto|].
  destruct (decode (hd [] rx));
    [|cbn [res rest trace map]; rewrite as_ampl_freq; auto].
  destruct (is_empty (hd [] (tl rx)));
    [cbn [res rest trace map]; rewrite as_ampl_freq; auto|].
  destruct (decode (hd [] (tl rx)));
    cbn [res rest trace map app]; rewrite as_ampl_freq; auto.
Qed.

Section RetryMirror.
Variables body_a body_f : M float.
Hypothesis body_mirrors : forall rx, mirrors (body_a rx) (body_f rx).

Lemma retry_mirrors attempts R d : forall rx,
  mirrors (retry_for body_a attempts R d rx)
          (retry_for body_f attempts R d rx).
Proof.
  induction attempts as [|a later IH]; intros rx.
  - repeat split.
  - cbn [retry_for]. unfold try_except.
    destruct (body_mirrors rx) as (Hres & Hrest & Htrace).
    revert Hres Hrest Htrace.
    generalize (body_a rx) as ra, (body_f rx) as rf. intros ra rf.
    intros Hres Hrest Htrace. rewrite Hres.
    assert (Hm : mirrors ra rf) by (repeat split; assumption).
    destruct (res rf) as [v|e]; [exact Hm|].
    destruct (caught e); [|exact Hm].
    rewrite !bind_emit. unfold prepend. cbn [res rest trace].
    rewrite Hrest, Htrace.
    destruct (a <? R).
    + rewrite !bind_run. unfold time_sleep.
      destruct (sleep_error d); cbn [res rest trace emit raise].
      * repeat split. cbn [trace]. rewrite !map_app. reflexivity.
      * destruct (IH (rest rf)) as (H1 & H2 & H3).
        cbn [res rest trace]. rewrite H1, H2, H3.
        repeat split. cbn [trace]. rewrite !map_app. reflexivity.
    + unfold raise. cbn [res rest trace]. repeat split.
      cbn [trace]. rewrite !map_app. reflexivity.
Qed.

End RetryMirror.

(** C8. The amplitude query is the frequency query but for the keyword it
    sends: on every serial line and with every retry count and delay, the
    two return or raise the same, consume the same reads, and emit the same
    events once [parameter_value? freq] is replaced by
    [parameter_value? ampl]; and one attempt of either is [attempt_run] on
    its own command, whose response is parsed by [parse_frequency]. *)
Theorem get_ampl_mirrors_get_freq (retries : Z) (delay : Q)
    (rx : list bytes) :
  let f := get_freq retries delay rx in
  let a := get_ampl retries delay rx in
  res a = res f /\
  rest a = rest f /\
  trace a = map as_ampl (trace f) /\
  get_freq_try rx = attempt_run cmd_freq rx /\
  get_ampl_try rx = attempt_run cmd_ampl rx.
Proof.
  intros f a. subst f a.
  pose proof (query_retry Freq retries delay rx) as Hf.
  pose proof (query_retry Ampl retries delay rx) as Ha.
  cbn [query query_try] in Hf, Ha. rewrite Hf, Ha.
  destruct (retry_mirrors get_ampl_try get_freq_try) with
    (attempts := range 1 (retries + 1) 1) (R := retries) (d := delay)
    (rx := rx) as (H1 & H2 & H3).
  { intros rx0.
    rewrite (query_try_run Ampl rx0 : get_ampl_try rx0 = _).
    rewrite (query_try_run Freq rx0 : get_freq_try rx0 = _).
    apply attempt_mirrors. }
  repeat split; try assumption.
  - exact (query_try_run Freq rx).
  - exact (query_try_run Ampl rx).
Qed.

(** ** One attempt: reads, timeouts and decoding *)

(** An echo that is not empty but is not UTF-8 either: the attempt stops
    at [echo.decode()] with a [UnicodeDecodeError], which is not a
    [TimeoutError]; the response is never read, let alone parsed, although
    it parses well. *)
Lemma attempt_undecodable_echo :
  let rx := [[xff; CR]; stub_line] in
  let r := get_freq_try rx in
  hd [] rx <> [] /\ hd [] (tl rx) <> [] /\
  res r = Raises UnicodeDecodeError /\
  is_TimeoutError UnicodeDecodeError = false /\
  reads_of (trace r) = [[xff; CR]] /\
  rest r = [stub_line] /\
  (exists text v,
     decode stub_line = Some text /\
     parse_frequency (strip text) = Returns v /\
     res r <> parse_frequency (strip text)).
Proof.
  cbv zeta.
  split; [vm_compute; discriminate|].
  split; [vm_compute; discriminate|].
  split; [vm_compute; reflexivity|].
  split; [reflexivity|].
  split; [vm_compute; reflexivity|].
  split; [vm_compute; reflexivity|].
  eexists. eexists.
  split; [vm_compute; reflexivity|].
  split; [vm_compute; reflexivity|].
  vm_compute. discriminate.
Qed.

(** C6, amended. One attempt first writes its command and reads the echo.
    An empty echo is a [TimeoutError] and a non-empty echo that is not
    UTF-8 a [UnicodeDecodeError]; in both cases the response is not read.
    Otherwise the response is read: empty, it is a [TimeoutError]; not
    UTF-8, a [UnicodeDecodeError]; otherwise the attempt ends as the parse
    of the stripped response does. *)
Theorem attempt_reads_then_parses (p : param) (rx : list bytes) :
  let echo := hd [] rx in
  let response := hd [] (tl rx) in
  let r := query_try p rx in
  hd_error (trace r) = Some (SerialWrite (command p)) /\
  writes_of (trace r) = [command p] /\
  match echo, decode echo with
  | [], _ =>
      res r = Raises (TimeoutError "No echo received from scope") /\
      reads_of (trace r) = [echo] /\ rest r = tl rx
  | _ :: _, None =>
      res r = Raises UnicodeDecodeError /\
      reads_of (trace r) = [echo] /\ rest r = tl rx
  | _ :: _, Some _ =>
      reads_of (trace r) = [echo; response] /\ rest r = tl (tl rx) /\
      match response, decode response with
      | [], _ =>
          res r = Raises (TimeoutError "No response received from scope")
      | _ :: _, None => res r = Raises UnicodeDecodeError
      | _ :: _, Some text => res r = parse_frequency (strip text)
      end
  end.
Proof.
  intros echo response r. subst echo response r.
  rewrite query_try_run. unfold attempt_run.
  destruct (hd [] rx) as [|b echo]; cbn [is_empty].
  { repeat split. }
  destruct (decode (b :: echo)) as [echo_text|].
  2: { repeat split. }
  destruct (hd [] (tl rx)) as [|c response]; cbn [is_empty].
  { repeat split. }
  destruct (decode (c :: response)) as [text|]; repeat split.
Qed.

(** ** The events of a query *)

Section RetryEvents.
Variable body : M float.
Variable P : event -> bool.
Hypothesis body_events : forall rx, forallb P (trace (body rx)) = true.
Hypothesis report_ok : forall a e, P (PrintFailed a e) = true.
Hypothesis sleep_ok : forall d, P (Sleep d) = true.

Lemma retry_events attempts R d : forall rx,
  forallb P (trace (retry_for body attempts R d rx)) = true.
Proof.
  induction attempts as [|a later IH]; intros rx; [reflexivity|].
  cbn [retry_for]. unfold try_except.
  pose proof (body_events rx) as Hb. revert Hb.
  generalize (body rx) as r0. intros r0 Hb.
  destruct (res r0) as [v|e]; [exact Hb|].
  destruct (caught e); [|exact Hb].
  cbn [trace]. rewrite forallb_app, Hb, bind_emit. unfold prepend.
  cbn [trace forallb andb]. rewrite report_ok. cbn [andb].
  destruct (a <? R); [|reflexivity].
  rewrite bind_run. unfold time_sleep.
  destruct (sleep_error d); cbn [res rest trace emit raise]; [reflexivity|].
  cbn [app forallb]. rewrite sleep_ok. apply IH.
Qed.

End RetryEvents.

Lemma query_events p R d rx :
  forallb (query_event (command p)) (trace (query p R d rx)) = true.
Proof.
  rewrite query_retry. apply retry_events; try reflexivity.
  intros rx0. rewrite query_try_run. unfold attempt_run.
  assert (Hw : query_event (command p) (SerialWrite (command p)) = true).
  { unfold query_event.
    destruct (list_eq_dec byte_eq_dec (command p) (command p));
      [reflexivity | congruence]. }
  destruct (is_empty (hd [] rx0)); cbn [trace forallb]; rewrite ?Hw;
    [reflexivity|].
  destruct (decode (hd [] rx0)); cbn [trace forallb]; rewrite ?Hw;
    [|reflexivity].
  destruct (is_empty (hd [] (tl rx0))); cbn [trace forallb]; rewrite ?Hw;
    [reflexivity|].
  destruct (decode (hd [] (tl rx0))); cbn [trace forallb app]; rewrite ?Hw;
    reflexivity.
Qed.

Lemma query_event_quiet cmd t :
  forallb (query_event cmd) t = true ->
  set_frequencies t = [] /\ plots_of t = [] /\
  (cmd <> aset_command -> ~ In (SerialWrite aset_command) t).
Proof.
  induction t as [|ev t IH]; intros H.
  - repeat split. intros _ [].
  - cbn [forallb] in H. apply andb_true_iff in H as [Hev Ht].
    destruct (IH Ht) as (H1 & H2 & H3).
    destruct ev; cbn in Hev; try discriminate; cbn; repeat split; auto.
    all: intros Hne [Heq|Hin]; try discriminate; try (apply (H3 Hne Hin)).
    injection Heq as ->.
    destruct (list_eq_dec byte_eq_dec _ cmd) as [e|n];
      [apply Hne; symmetry; exact e | discriminate].
Qed.

(** ** One sweep step *)

Lemma send_aset_run rx :
  send_query (lit "aset") rx = aset_run rx.
Proof.
  unfold send_query, aset_run, serial_reset_input_buffer, serial_write.
  rewrite bind_emit.
  change (encode (lit "aset")) with (Some (blit "aset")).
  cbn [or_raise]. rewrite bind_ret, bind_emit, !bind_read.
  unfold bytes_decode.
  destruct (decode (hd [] (tl rx))) as [text|]; cbn [or_raise].
  - rewrite bind_ret. reflexivity.
  - rewrite bind_raise. reflexivity.
Qed.

Ltac run_done :=
  unfold prepend; cbn [res rest trace app ret raise];
  rewrite ?app_nil_r, <- ?app_assoc; reflexivity.

Lemma sweep_step_run th i st rx :
  sweep_step th i st rx = step_run th i st rx.
Proof.
  unfold sweep_step, step_run.
  rewrite bind_emit, bind_run, time_sleep_run by reflexivity.
  cbn [res rest trace]. rewrite bind_run.
  generalize (get_freq 3 (1 # 2) rx) as r1. intros r1.
  destruct (res r1) as [f|e]; [|run_done].
  cbv zeta. rewrite bind_run.
  generalize (get_ampl 3 (1 # 2) (rest r1)) as r2. intros r2.
  destruct (res r2) as [a|e]; [|run_done].
  unfold period_change, float_truediv, float_one.
  destruct (truediv (float_lit "1.0") f) as [current|] eqn:Hcur;
    cbn [or_raise]; [rewrite bind_ret | rewrite bind_raise; run_done].
  destruct (truediv (fabs (fsub current (last_period st))) (last_period st))
    as [change|]; cbn [or_raise];
    [rewrite bind_ret | rewrite bind_raise; run_done].
  destruct (fge change th); [|run_done].
  rewrite bind_run.
  generalize (send_query (lit "aset") (rest r2)) as r3. intros r3.
  destruct (res r3) as [answer|e]; [|run_done].
  rewrite bind_run, time_sleep_run by reflexivity.
  run_done.
Qed.

Lemma query_never_asets p R d rx :
  ~ In (SerialWrite aset_command) (trace (query p R d rx)).
Proof.
  apply (query_event_quiet (command p)); [apply query_events|].
  intros H. destruct p; vm_compute in H; discriminate.
Qed.

Lemma aset_run_asets rx : In (SerialWrite aset_command) (trace (aset_run rx)).
Proof.
  unfold aset_run. destruct (decode (hd [] (tl rx))); right; left; reflexivity.
Qed.

Lemma positive_not_zero f : fgt f (S754_zero false) = true -> is_zero f = false.
Proof. destruct f; cbn; congruence. Qed.

(** ** The drift rule *)

(** C3. In a sweep step whose queries measured the frequency [f > 0] and
    the amplitude [a], with reference period [P]: autoset is sent if and
    only if [|1/f - P| / P >= 0.4] (in Python's float arithmetic; the
    comparison does not hold when the division by [P] is undefined), and
    a step that completes leaves the reference period at [1/f] when the
    threshold was met and at [P] when it was not, with [f] and [a]
    appended to the two lists. *)
Theorem drift_rule (i : Z) (st : sweep_state) (rx : list bytes)
    (f a : float) :
  fgt f (S754_zero false) = true ->
  res (get_freq 3 (1 # 2) rx) = Returns f ->
  res (get_ampl 3 (1 # 2) (rest (get_freq 3 (1 # 2) rx))) = Returns a ->
  let threshold := float_lit "0.4" in
  let P := last_period st in
  let r := sweep_step threshold i st rx in
  (In (SerialWrite aset_command) (trace r)
   <-> drift_exceeds threshold P f = true) /\
  (forall st', res r = Returns st' ->
     freq st' = freq st ++ [f] /\
     ampl st' = ampl st ++ [a] /\
     last_period st' = if drift_exceeds threshold P f
                       then SFdiv prec emax float_one f
                       else P).
Proof.
  intros Hpos Hf Ha threshold P r. subst r P.
  rewrite sweep_step_run. unfold step_run. rewrite Hf. cbv zeta.
  rewrite Ha.
  pose proof (query_never_asets Freq 3 (1 # 2) rx) as N1.
  pose proof (query_never_asets Ampl 3 (1 # 2)
                (rest (get_freq 3 (1 # 2) rx))) as N2.
  cbn [query] in N1, N2.
  assert (Hquiet : ~ In (SerialWrite aset_command)
                     ([GenSetFrequency 2 i; Sleep (1 # 2)]
                        ++ trace (get_freq 3 (1 # 2) rx)
                        ++ trace (get_ampl 3 (1 # 2)
                                    (rest (get_freq 3 (1 # 2) rx))))).
  { intros H. cbn [app] in H. destruct H as [H|[H|H]]; try discriminate.
    apply in_app_or in H. tauto. }
  assert (Hcur : truediv float_one f = Some (SFdiv prec emax float_one f)).
  { unfold truediv. rewrite (positive_not_zero f Hpos). reflexivity. }
  unfold drift_exceeds, period_change. rewrite !Hcur.
  destruct (truediv (fabs (fsub (SFdiv prec emax float_one f) (last_period st)))
                    (last_period st)) as [change|].
  2: { cbn [res trace].
       split; [split; [tauto | discriminate] | discriminate]. }
  destruct (fge change threshold).
  - rewrite send_aset_run. pose proof (aset_run_asets
      (rest (get_ampl 3 (1 # 2) (rest (get_freq 3 (1 # 2) rx))))) as Hin.
    split.
    + split; [reflexivity|]. intros _.
      destruct (res (aset_run _)); cbn [trace];
        rewrite !app_assoc; apply in_or_app.
      * left. apply in_or_app. right. exact Hin.
      * right. exact Hin.
    + destruct (res (aset_run _)); cbn [res]; [|discriminate].
      intros st' H. injection H as <-. repeat split.
  - cbn [res trace]. split; [split; [tauto | discriminate]|].
    intros st' H. injection H as <-. repeat split.
Qed.

(** With reference period [1.0], a measured [1.6666666666666667] Hz has
    period [0.6] and relative change exactly [0.4]: autoset is sent. *)
Lemma drift_rule_witness :
  let st := {| last_period := float_lit "1.0"; freq := []; ampl := [] |} in
  let line := blit "C1:PAVA FREQ,1.6666666666666667 HZ,AV" ++ [CR] in
  let r := sweep_step (float_lit "0.4") 7000 st
             [line; line; line; line; line; line] in
  period_change (float_lit "1.0") (float_lit "1.6666666666666667")
    = Some (float_lit "0.4") /\
  In (SerialWrite aset_command) (trace r) /\
  res r = Returns {| last_period := float_lit "0.6";
                     freq := [float_lit "1.6666666666666667"];
                     ampl := [float_lit "1.6666666666666667"] |}.
Proof.
  cbv zeta.
  split; [vm_compute; reflexivity|].
  pose proof (drift_rule 7000
                {| last_period := float_lit "1.0"; freq := []; ampl := [] |}
                (repeat (blit "C1:PAVA FREQ,1.6666666666666667 HZ,AV" ++ [CR]) 6)
                (float_lit "1.6666666666666667")
                (float_lit "1.6666666666666667")) as H.
  cbv zeta in H.
  destruct H as [Hiff _]; try (vm_compute; reflexivity).
  split.
  - apply Hiff. vm_compute. reflexivity.
  - vm_compute. reflexivity.
Defined.

(** Just below the threshold: [1.6666666666666665] Hz against the
    reference period [1.0] changes the period by [0.3999999999999999], and
    the step neither sends autoset nor moves the reference period. *)
Lemma drift_below_threshold :
  let st := {| last_period := float_lit "1.0"; freq := []; ampl := [] |} in
  let line := blit "C1:PAVA FREQ,1.6666666666666665 HZ,AV" ++ [CR] in
  let r := sweep_step (float_lit "0.4") 7000 st
             [line; line; line; line; line; line] in
  period_change (float_lit "1.0") (float_lit "1.6666666666666665")
    = Some (float_lit "0.3999999999999999") /\
  writes_of (trace r) = [cmd_freq; cmd_ampl] /\
  res r = Returns {| last_period := float_lit "1.0";
                     freq := [float_lit "1.6666666666666665"];
                     ampl := [float_lit "1.6666666666666665"] |}.
Proof.
  cbv zeta. split; [|split]; vm_compute; reflexivity.
Qed.

(** ** The sweep loop *)

Lemma aset_run_quiet rx :
  set_frequencies (trace (aset_run rx)) = [] /\
  plots_of (trace (aset_run rx)) = [].
Proof.
  unfold aset_run. destruct (decode (hd [] (tl rx))); split; reflexivity.
Qed.

Lemma query_quiet p R d rx :
  set_frequencies (trace (query p R d rx)) = [] /\
  plots_of (trace (query p R d rx)) = [].
Proof.
  destruct (query_event_quiet (command p) (trace (query p R d rx)))
    as (H1 & H2 & _); [apply query_events | split; assumption].
Qed.

(** A step that completes appends one entry to each list, commands the
    generator once, to its step frequency, and plots nothing. *)
Lemma sweep_step_appends th i st rx st' :
  res (sweep_step th i st rx) = Returns st' ->
  (exists f a, freq st' = freq st ++ [f] /\ ampl st' = ampl st ++ [a]) /\
  set_frequencies (trace (sweep_step th i st rx)) = [i] /\
  plots_of (trace (sweep_step th i st rx)) = [].
Proof.
  rewrite sweep_step_run. unfold step_run.
  destruct (query_quiet Freq 3 (1 # 2) rx) as [Q1 P1].
  destruct (query_quiet Ampl 3 (1 # 2) (rest (get_freq 3 (1 # 2) rx)))
    as [Q2 P2].
  cbn [query] in Q1, P1, Q2, P2.
  destruct (res (get_freq 3 (1 # 2) rx)) as [f|]; [|discriminate].
  cbv zeta.
  destruct (res (get_ampl 3 (1 # 2) _)) as [a|]; [|discriminate].
  destruct (truediv float_one f); [|discriminate].
  destruct (period_change (last_period st) f); [|discriminate].
  destruct (fge _ th).
  - rewrite send_aset_run.
    destruct (aset_run_quiet (rest (get_ampl 3 (1 # 2)
                                      (rest (get_freq 3 (1 # 2) rx)))))
      as [Q3 P3].
    destruct (res (aset_run _)); [|discriminate].
    cbn [res trace]. intros H. injection H as <-.
    split; [exists f, a; split; reflexivity|].
    rewrite !set_frequencies_app, !plots_of_app, Q1, Q2, Q3, P1, P2, P3.
    split; reflexivity.
  - cbn [res trace]. intros H. injection H as <-.
    split; [exists f, a; split; reflexivity|].
    rewrite !set_frequencies_app, !plots_of_app, Q1, Q2, P1, P2.
    split; reflexivity.
Qed.

Lemma sweep_loop_appends th steps : forall st rx st',
  res (sweep_loop th steps st rx) = Returns st' ->
  (exists fs amps,
     freq st' = freq st ++ fs /\ ampl st' = ampl st ++ amps /\
     List.length fs = List.length steps /\
     List.length amps = List.length steps) /\
  set_frequencies (trace (sweep_loop th steps st rx)) = steps /\
  plots_of (trace (sweep_loop th steps st rx)) = [].
Proof.
  induction steps as [|i later IH]; intros st rx st' H.
  - cbn in H. injection H as <-.
    split; [exists [], []; rewrite !app_nil_r; repeat split|].
    split; reflexivity.
  - cbn [sweep_loop] in *. rewrite bind_run in *.
    destruct (res (sweep_step th i st rx)) as [st1|] eqn:Hstep;
      [|discriminate].
    destruct (sweep_step_appends _ _ _ _ _ Hstep)
      as ((f & a & Hf & Ha) & Hset & Hplot).
    cbn [res trace] in *.
    destruct (IH _ _ _ H) as ((fs & amps & Hfs & Has & Lf & La) & Hset' & Hplot').
    split.
    + exists (f :: fs), (a :: amps). rewrite Hfs, Has, Hf, Ha, <- !app_assoc.
      cbn [List.length]. repeat split; congruence.
    + rewrite set_frequencies_app, plots_of_app, Hset, Hset', Hplot, Hplot'.
      split; reflexivity.
Qed.

Lemma bind_assoc {A B C} (m : M A) (k : A -> M B) (h : B -> M C) rx :
  bind (bind m k) h rx = bind m (fun x => bind (k x) h) rx.
Proof.
  unfold bind. destruct (m rx) as [[a|e] rx1 t1]; cbn [res rest trace];
    [|reflexivity].
  destruct (k a rx1) as [[b|e] rx2 t2]; cbn [res rest trace];
    rewrite ?app_assoc; reflexivity.
Qed.

Lemma sweep_loop_app th done todo : forall st rx,
  sweep_loop th (done ++ todo) st rx =
  bind (sweep_loop th done st) (sweep_loop th todo) rx.
Proof.
  induction done as [|i done IH]; intros st rx.
  - cbn [app sweep_loop]. rewrite bind_ret. reflexivity.
  - cbn [app sweep_loop]. rewrite bind_assoc, !(bind_run (sweep_step th i st)).
    destruct (res (sweep_step th i st rx)); [|reflexivity].
    cbv zeta. rewrite IH. reflexivity.
Qed.

(** C7. At every step boundary of a sweep (after the steps [done], from
    lists of equal length) the two lists have equal length, each having
    gained exactly one entry per completed step; and whatever the sweep
    does afterwards (the steps [todo]) only appends to them, so the entries
    already there stay as they are. *)
Theorem sweep_lists_grow_together (th : float) (done : list Z)
    (st : sweep_state) (rx : list bytes) (st_mid : sweep_state) :
  res (sweep_loop th done st rx) = Returns st_mid ->
  List.length (freq st) = List.length (ampl st) ->
  List.length (freq st_mid) = (List.length (freq st) + List.length done)%nat /\
  List.length (ampl st_mid) = (List.length (ampl st) + List.length done)%nat /\
  List.length (freq st_mid) = List.length (ampl st_mid) /\
  firstn (List.length (freq st)) (freq st_mid) = freq st /\
  firstn (List.length (ampl st)) (ampl st_mid) = ampl st /\
  forall todo st_end,
    res (sweep_loop th (done ++ todo) st rx) = Returns st_end ->
    exists fs amps,
      freq st_end = freq st_mid ++ fs /\
      ampl st_end = ampl st_mid ++ amps /\
      List.length fs = List.length todo /\
      List.length amps = List.length todo.
Proof.
  intros Hmid Heq.
  destruct (sweep_loop_appends _ _ _ _ _ Hmid)
    as ((fs & amps & Hf & Ha & Lf & La) & _).
  rewrite Hf, Ha, !length_app, Lf, La.
  repeat split; try lia.
  - rewrite firstn_app, Nat.sub_diag, firstn_all. cbn. apply app_nil_r.
  - rewrite firstn_app, Nat.sub_diag, firstn_all. cbn. apply app_nil_r.
  - intros todo st_end Hend.
    rewrite sweep_loop_app, bind_run, Hmid in Hend. cbn [res] in Hend.
    destruct (sweep_loop_appends _ _ _ _ _ Hend)
      as ((fs' & amps' & Hf' & Ha' & Lf' & La') & _).
    exists fs', amps'. rewrite <- Hf, <- Ha. repeat split; assumption.
Qed.

(** Two steps against the stub oscilloscope. *)
Lemma sweep_lists_grow_together_witness :
  let st0 := {| last_period := float_lit "0.0001"; freq := []; ampl := [] |} in
  let x := float_lit "10001.75" in
  let st2 := {| last_period := float_lit "0.0001";
                freq := [x; x]; ampl := [x; x] |} in
  res (sweep_loop (float_lit "0.4") [10000; 9900] st0 (stub_rx 12))
    = Returns st2 /\
  List.length (freq st2) = List.length (ampl st2) /\
  forall todo st_end,
    res (sweep_loop (float_lit "0.4") ([10000; 9900] ++ todo) st0
           (stub_rx 12)) = Returns st_end ->
    exists fs amps,
      freq st_end = freq st2 ++ fs /\
      ampl st_end = ampl st2 ++ amps /\
      List.length fs = List.length todo /\
      List.length amps = List.length todo.
Proof.
  cbv zeta.
  assert (Hrun : res (sweep_loop (float_lit "0.4") [10000; 9900]
                        {| last_period := float_lit "0.0001";
                           freq := []; ampl := [] |} (stub_rx 12))
                 = Returns {| last_period := float_lit "0.0001";
                              freq := [float_lit "10001.75";
                                       float_lit "10001.75"];
                              ampl := [float_lit "10001.75";
                                       float_lit "10001.75"] |}).
  { vm_compute. reflexivity. }
  split; [exact Hrun|].
  pose proof (sweep_lists_grow_together _ _ _ _ _ Hrun eq_refl) as H.
  split; [apply H | apply H].
Defined.

(** ** Parsing a response *)

Transparent parse_frequency.

(** What [parse_frequency] does on every string, by its comma-fields. *)
Lemma parse_frequency_cases (s : str) :
  match split_on 44 s with
  | _ :: field :: _ =>
      match split field with
      | token :: _ =>
          parse_frequency s =
          match float_of_str token with
          | Some x => Returns x
          | None => Raises (ValueError "could not convert string to float")
          end
      | [] => parse_frequency s = Raises IndexError
      end
  | _ => parse_frequency s = Raises (ValueError "Unexpected response format")
  end.
Proof.
  unfold parse_frequency.
  destruct (split_on 44 s) as [|first [|field more]]; try reflexivity.
  cbn [List.length nth_error].
  destruct (Z.ltb_spec (Z.of_nat (S (S (List.length more)))) 2); [lia|].
  destruct (split field); reflexivity.
Qed.

Opaque parse_frequency.

(** C4. [parse_frequency] maps [C1:PAVA FREQ,10.00175E+3 HZ,AV] to the
    float [10001.75]; in general, when the input has a second comma-field
    and that field has a first whitespace-delimited word, the result is
    that of [float] on this word (so a word in exponent notation is read
    as such). *)
Theorem parse_frequency_second_field :
  parse_frequency (lit "C1:PAVA FREQ,10.00175E+3 HZ,AV")
    = Returns (float_lit "10001.75") /\
  float_value_is (float_lit "10001.75") (1000175 # 100) /\
  float_of_str (lit "10.00175E+3") = Some (of_decimal false 1000175 (-2)) /\
  forall (s field token : str) (more : list str),
    nth_error (split_on 44 s) 1 = Some field ->
    split field = token :: more ->
    parse_frequency s =
    match float_of_str token with
    | Some x => Returns x
    | None => Raises (ValueError "could not convert string to float")
    end.
Proof.
  split; [vm_compute; reflexivity|].
  split; [vm_compute; reflexivity|].
  split; [vm_compute; reflexivity|].
  intros s field token more Hfield Htoken.
  pose proof (parse_frequency_cases s) as H.
  destruct (split_on 44 s) as [|first [|field' rest']]; try discriminate.
  cbn in Hfield. injection Hfield as ->.
  rewrite Htoken in H. exact H.
Qed.

(** The example of the docstring, through the general statement. *)
Lemma parse_frequency_second_field_witness :
  parse_frequency (lit "C1:PAVA FREQ,10.00175E+3 HZ,AV")
    = Returns (float_lit "10001.75").
Proof.
  destruct parse_frequency_second_field as (_ & _ & _ & H).
  rewrite (H (lit "C1:PAVA FREQ,10.00175E+3 HZ,AV")
             (lit "10.00175E+3 HZ") (lit "10.00175E+3") [lit "HZ"]).
  - vm_compute. reflexivity.
  - vm_compute. reflexivity.
  - vm_compute. reflexivity.
Defined.

(** C5, at the input where the code leaves the claim: the second field of
    [C1:PAVA , ,AV] is blank, there is no token to parse, and
    [parts[1].split()[0]] raises [IndexError], which is neither a float nor
    the [ValueError] that the function raises for an unexpected format.
    The two failures that the claim names do raise [ValueError]. *)
Theorem parse_frequency_blank_field_index_error :
  List.length (split_on 44 (lit "C1:PAVA , ,AV")) = 3%nat /\
  parse_frequency (lit "C1:PAVA , ,AV") = Raises IndexError /\
  is_ValueError IndexError = false /\
  parse_frequency (lit "garbage")
    = Raises (ValueError "Unexpected response format") /\
  parse_frequency (lit "C1:PAVA FREQ,notanumber HZ,AV")
    = Raises (ValueError "could not convert string to float").
Proof.
  split; [vm_compute; reflexivity|].
  split; [vm_compute; reflexivity|].
  split; [reflexivity|].
  split; vm_compute; reflexivity.
Qed.

(** ** The sweep of [main] *)

Lemma set_frequencies_cons ev t :
  set_frequencies (ev :: t) =
  match ev with GenSetFrequency _ v => [v] | _ => [] end ++ set_frequencies t.
Proof. reflexivity. Qed.

Lemma plots_of_cons ev t :
  plots_of (ev :: t) =
  match ev with Plot xs ys => [(xs, ys)] | _ => [] end ++ plots_of t.
Proof. reflexivity. Qed.

Lemma main_steps :
  range 10000 1000 (- (100)) =
  map (fun k => 10000 - 100 * Z.of_nat k) (seq 0 90).
Proof. vm_compute. reflexivity. Qed.

Lemma main_last_period :
  int_truediv 1 10000 = ret (float_lit "0.0001").
Proof. vm_compute. reflexivity. Qed.

(** A run of [main] that completes has commanded the generator to 5000,
    to 10000 and then to each step frequency, and has plotted once, the
    two lists of the sweep. *)
Lemma main_completes rx :
  res (main rx) = Returns tt ->
  exists fs amps,
    set_frequencies (trace (main rx))
      = 5000 :: 10000 :: range 10000 1000 (- (100)) /\
    plots_of (trace (main rx)) = [(fs, amps)] /\
    List.length fs = List.length (range 10000 1000 (- (100))) /\
    List.length amps = List.length (range 10000 1000 (- (100))).
Proof.
  unfold main. cbv zeta.
  generalize (range 10000 1000 (- (100))) as steps. intros steps.
  generalize (float_lit "0.4") as th. intros th.
  rewrite !bind_emit, main_last_period, bind_ret, bind_emit, bind_run,
    send_aset_run.
  generalize (float_lit "0.0001") as lp. intros lp.
  destruct (aset_run_quiet rx) as [Q0 P0].
  destruct (res (aset_run rx)); [|discriminate].
  cbv zeta. rewrite bind_run, time_sleep_run by reflexivity.
  cbn [res rest trace]. rewrite bind_run.
  destruct (res (sweep_loop _ _ _ _)) as [st|] eqn:Hloop; [|discriminate].
  destruct (sweep_loop_appends _ _ _ _ _ Hloop)
    as ((fs & amps & Hf & Ha & Lf & La) & Hset & Hplot).
  cbn [freq ampl app] in Hf, Ha.
  intros _. exists fs, amps.
  unfold prepend. cbn [res rest trace bind emit app].
  split; [|split; [|split; assumption]].
  - repeat first [rewrite set_frequencies_cons | rewrite set_frequencies_app].
    rewrite Q0, Hset. cbn [app set_frequencies flat_map].
    rewrite app_nil_r. reflexivity.
  - repeat first [rewrite plots_of_cons | rewrite plots_of_app].
    rewrite P0, Hplot, Hf, Ha. reflexivity.
Qed.

(** Against the stub oscilloscope [main] completes, and the frequencies it
    commands in its loop start at 10000 and stop at 1100: they are not the
    list 9900, 9800, ..., 1000. *)
Lemma sweep_steps_not_as_claimed :
  let r := main (stub_rx 362) in
  res r = Returns tt /\
  set_frequencies (trace r) = 5000 :: 10000 :: range 10000 1000 (- (100)) /\
  range 10000 1000 (- (100)) <> claimed_steps /\
  hd 0 (range 10000 1000 (- (100))) = 10000 /\
  last (range 10000 1000 (- (100))) 0 = 1100 /\
  hd 0 claimed_steps = 9900 /\
  last claimed_steps 0 = 1000.
Proof.
  cbv zeta.
  split; [vm_compute; reflexivity|].
  split; [vm_compute; reflexivity|].
  split; [vm_compute; discriminate|].
  repeat split; vm_compute; reflexivity.
Qed.

(** C1, amended. The loop of [main] runs over the 90 step frequencies
    10000, 9900, ..., 1100 (from the maximum, included, down to the
    minimum, excluded, by steps of 100); a run that completes has
    commanded them to the generator in this order, after the two settings
    made before the loop, and has plotted 90 frequencies against 90
    amplitudes. *)
Theorem sweep_steps_of_main (rx : list bytes) :
  range 10000 1000 (- (100))
    = map (fun k => 10000 - 100 * Z.of_nat k) (seq 0 90) /\
  (res (main rx) = Returns tt ->
   exists fs amps,
     set_frequencies (trace (main rx))
       = 5000 :: 10000 :: range 10000 1000 (- (100)) /\
     plots_of (trace (main rx)) = [(fs, amps)] /\
     List.length fs = 90%nat /\
     List.length amps = 90%nat).
Proof.
  split; [exact main_steps|].
  intros H. destruct (main_completes rx H) as (fs & amps & H1 & H2 & H3 & H4).
  exists fs, amps. rewrite H3, H4. repeat split; try assumption.
  all: vm_compute; reflexivity.
Qed.

(** The run against the stub oscilloscope. *)
Lemma sweep_steps_of_main_witness :
  exists fs amps,
    set_frequencies (trace (main (stub_rx 362)))
      = 5000 :: 10000 :: range 10000 1000 (- (100)) /\
    plots_of (trace (main (stub_rx 362))) = [(fs, amps)] /\
    List.length fs = 90%nat /\
    List.length amps = 90%nat.
Proof.
  apply (proj2 (sweep_steps_of_main (stub_rx 362))).
  vm_compute. reflexivity.
Defined.

(** * Further properties *)

(** ** [split(',')] and the fields of a response *)

Lemma split_on_no_sep sep (a : str) : ~ In sep a -> split_on sep a = [a].
Proof.
  induction a as [|c a IH]; intros H; [reflexivity|].
  cbn [split_on]. destruct (Z.eqb_spec c sep) as [->|Hc].
  - exfalso. apply H. left. reflexivity.
  - rewrite IH; [reflexivity|]. intros Hin. apply H. right. exact Hin.
Qed.

Lemma split_on_app sep (a b : str) :
  ~ In sep a -> split_on sep (a ++ sep :: b) = a :: split_on sep b.
Proof.
  induction a as [|c a IH]; intros H.
  - cbn [app split_on]. rewrite Z.eqb_refl. reflexivity.
  - cbn [app split_on]. destruct (Z.eqb_spec c sep) as [->|Hc].
    + exfalso. apply H. left. reflexivity.
    + rewrite IH; [reflexivity|]. intros Hin. apply H. right. exact Hin.
Qed.

Lemma split_on_two_fields sep (s : str) :
  In sep s -> exists first field more, split_on sep s = first :: field :: more.
Proof.
  induction s as [|c s IH]; intros H; [destruct H|].
  cbn [split_on]. destruct (Z.eqb_spec c sep) as [->|Hc].
  - destruct (split_on sep s) as [|w ws] eqn:Hs.
    + destruct s as [|d s']; cbn in Hs; [discriminate|].
      destruct (d =? sep); [discriminate|].
      destruct (split_on sep s'); discriminate.
    + exists [], w, ws. reflexivity.
  - destruct H as [H|H]; [congruence|].
    destruct (IH H) as (first & field & more & ->).
    exists (c :: first), field, more. reflexivity.
Qed.

(** X1. [parse_frequency] raises its own [ValueError("Unexpected response
    format")] exactly on the inputs without a comma (the empty string
    among them); with a comma, it fails in another way or returns. *)
Theorem format_error_iff_no_comma (s : str) :
  parse_frequency s = Raises (ValueError "Unexpected response format")
  <-> ~ In 44 s.
Proof.
  pose proof (parse_frequency_cases s) as H. split.
  - intros Hfmt Hin.
    destruct (split_on_two_fields 44 s Hin) as (first & field & more & Hs).
    rewrite Hs in H. rewrite Hfmt in H.
    destruct (split field) as [|token words]; [discriminate|].
    destruct (float_of_str token); discriminate.
  - intros Hno. rewrite (split_on_no_sep 44 s Hno) in H. exact H.
Qed.

(** X2. Only the first word of the second comma-field counts: the text
    before the first comma, the rest of the second field after its first
    word, and everything from the second comma on never change what
    [parse_frequency] returns or raises. *)
Theorem parse_reads_first_word_of_second_field
    (tag tag' field field' tail tail' : str) :
  ~ In 44 tag -> ~ In 44 tag' -> ~ In 44 field -> ~ In 44 field' ->
  hd_error (split field) = hd_error (split field') ->
  parse_frequency (tag ++ 44 :: field ++ 44 :: tail)
    = parse_frequency (tag' ++ 44 :: field' ++ 44 :: tail') /\
  parse_frequency (tag ++ 44 :: field ++ 44 :: tail)
    = parse_frequency (44 :: field').
Proof.
  intros Ht Ht' Hf Hf' Hword.
  pose proof (parse_frequency_cases (tag ++ 44 :: field ++ 44 :: tail)) as H1.
  pose proof (parse_frequency_cases (tag' ++ 44 :: field' ++ 44 :: tail'))
    as H2.
  pose proof (parse_frequency_cases (44 :: field')) as H3.
  rewrite split_on_app, split_on_app in H1 by assumption.
  rewrite split_on_app, split_on_app in H2 by assumption.
  change (split_on 44 (44 :: field')) with ([] :: split_on 44 field') in H3.
  rewrite (split_on_no_sep 44 field' Hf') in H3.
  destruct (split field) as [|w ws], (split field') as [|w' ws'];
    cbn in Hword; try discriminate.
  - rewrite H1, H2, H3. split; reflexivity.
  - injection Hword as ->. rewrite H1, H2, H3. split; reflexivity.
Qed.

(** The docstring's line against another tag, unit and flag. *)
Lemma parse_reads_first_word_of_second_field_witness :
  parse_frequency (lit "C1:PAVA FREQ,10.00175E+3 HZ,AV")
    = parse_frequency (lit "C2:PAVA AMPL, 10.00175E+3 V mean,,x,y") /\
  parse_frequency (lit "C1:PAVA FREQ,10.00175E+3 HZ,AV")
    = parse_frequency (lit ", 10.00175E+3 V mean").
Proof.
  apply (parse_reads_first_word_of_second_field
           (lit "C1:PAVA FREQ") (lit "C2:PAVA AMPL")
           (lit "10.00175E+3 HZ") (lit " 10.00175E+3 V mean")
           (lit "AV") (lit ",x,y")).
  all: vm_compute; try reflexivity.
  all: intuition discriminate.
Defined.

(** ** What a query costs and how it can fail *)

Lemma sleeps_of_app t1 t2 : sleeps_of (t1 ++ t2) = sleeps_of t1 ++ sleeps_of t2.
Proof. apply flat_map_app. Qed.

Section RetryBounds.
Variable body : M float.
Variable cmd : bytes.
Hypothesis body_writes : forall rx, writes_of (trace (body rx)) = [cmd].
Hypothesis body_sleeps : forall rx, sleeps_of (trace (body rx)) = [].
Hypothesis body_reads :
  forall rx, (List.length (reads_of (trace (body rx))) <= 2)%nat.
Hypothesis body_raises :
  forall rx e, res (body rx) = Raises e -> caught e = true \/ e = IndexError.

Lemma retry_step_refused a later R d rx e err :
  res (body rx) = Raises e -> caught e = true -> a < R ->
  sleep_error d = Some err ->
  retry_for body (a :: later) R d rx =
  Run (Raises err) (rest (body rx)) (trace (body rx) ++ [PrintFailed a e]).
Proof.
  intros H Hc Ha Hd. rewrite (retry_step_caught _ _ _ _ _ _ _ H Hc).
  rewrite bind_emit. destruct (Z.ltb_spec a R); [|lia].
  rewrite bind_run, (time_sleep_raises _ _ _ Hd). reflexivity.
Qed.

Lemma retry_bounds n : forall a R d rx,
  R - a = Z.of_nat n ->
  let t := trace (retry_for body (range a (R + 1) 1) R d rx) in
  exists k m,
    writes_of t = repeat cmd (S k) /\ sleeps_of t = repeat d m /\
    (k <= n)%nat /\ (m <= k)%nat /\
    (List.length (reads_of t) <= 2 * S k)%nat.
Proof.
  induction n as [|n IH]; intros a R d rx Ha t; subst t.
  all: rewrite range_cons by lia.
  all: pose proof (body_reads rx) as Hr.
  all: destruct (res (body rx)) as [v|e] eqn:Hres.
  all: try (rewrite (retry_step_returns _ _ _ _ _ _ _ Hres);
            exists O, O; rewrite body_writes, body_sleeps;
            repeat split; cbn; lia).
  all: destruct (caught e) eqn:Hc;
    [| rewrite (retry_step_escapes _ _ _ _ _ _ _ Hres Hc);
       exists O, O; rewrite body_writes, body_sleeps;
       repeat split; cbn; lia].
  - rewrite (retry_step_last _ _ _ _ _ _ _ Hres Hc) by lia. cbn [trace].
    exists O, O.
    rewrite writes_of_app, sleeps_of_app, reads_of_app, body_writes,
      body_sleeps.
    cbn. rewrite app_nil_r. repeat split; lia.
  - destruct (sleep_error d) as [err|] eqn:Hd.
    + rewrite (retry_step_refused _ _ _ _ _ _ _ Hres Hc) by (lia || exact Hd).
      cbn [trace]. exists O, O.
      rewrite writes_of_app, sleeps_of_app, reads_of_app, body_writes,
        body_sleeps.
      cbn. rewrite app_nil_r. repeat split; lia.
    + rewrite (retry_step_again _ _ _ _ _ _ _ Hres Hc) by (lia || exact Hd).
      cbn [trace].
      destruct (IH (a + 1) R d (rest (body rx))) as (k & m & Hw & Hs & Hk & Hm & Hrd);
        [lia|].
      exists (S k), (S m).
      rewrite !writes_of_app, !sleeps_of_app, !reads_of_app, body_writes,
        body_sleeps, Hw, Hs.
      cbn [writes_of sleeps_of reads_of flat_map app repeat List.length].
      repeat split; try lia.
      rewrite length_app. cbn [List.length] in *. lia.
Qed.

Lemma retry_raises n : forall a R d rx e,
  R - a = Z.of_nat n -> sleep_error d = None ->
  res (retry_for body (range a (R + 1) 1) R d rx) = Raises e ->
  e = IndexError \/
  exists cause, e = RuntimeError R cause /\ caught cause = true.
Proof.
  induction n as [|n IH]; intros a R d rx e Ha Hd Hraise.
  all: rewrite range_cons in Hraise by lia.
  all: destruct (res (body rx)) as [v|e0] eqn:Hres.
  all: try (rewrite (retry_step_returns _ _ _ _ _ _ _ Hres) in Hraise;
            congruence).
  all: destruct (caught e0) eqn:Hc;
    [| rewrite (retry_step_escapes _ _ _ _ _ _ _ Hres Hc) in Hraise;
       destruct (body_raises _ _ Hres) as [Hb|Hb]; [congruence|];
       left; congruence].
  - rewrite (retry_step_last _ _ _ _ _ _ _ Hres Hc) in Hraise by lia.
    right. exists e0. cbn in Hraise. split; congruence.
  - rewrite (retry_step_again _ _ _ _ _ _ _ Hres Hc) in Hraise
      by (lia || exact Hd).
    cbn [res] in Hraise. apply (IH (a + 1) R d (rest (body rx)) e);
      [lia | exact Hd | exact Hraise].
Qed.

End RetryBounds.

Lemma parse_raises s e :
  parse_frequency s = Raises e -> is_ValueError e = true \/ e = IndexError.
Proof.
  intros H. pose proof (parse_frequency_cases s) as Hc. rewrite H in Hc.
  destruct (split_on 44 s) as [|first [|field more]];
    try (injection Hc as ->; left; reflexivity).
  destruct (split field) as [|token words].
  - injection Hc as ->. right. reflexivity.
  - destruct (float_of_str token); [discriminate|].
    injection Hc as ->. left. reflexivity.
Qed.

Lemma attempt_facts cmd rx :
  writes_of (trace (attempt_run cmd rx)) = [cmd] /\
  sleeps_of (trace (attempt_run cmd rx)) = [] /\
  (List.length (reads_of (trace (attempt_run cmd rx))) <= 2)%nat /\
  (forall e, res (attempt_run cmd rx) = Raises e ->
             caught e = true \/ e = IndexError).
Proof.
  unfold attempt_run.
  destruct (is_empty (hd [] rx)).
  { repeat split; cbn; try lia. intros e H. injection H as <-. left. reflexivity. }
  destruct (decode (hd [] rx)).
  2: { repeat split; cbn; try lia. intros e H. injection H as <-. left. reflexivity. }
  destruct (is_empty (hd [] (tl rx))).
  { repeat split; cbn; try lia. intros e H. injection H as <-. left. reflexivity. }
  destruct (decode (hd [] (tl rx))) as [text|].
  2: { repeat split; cbn; try lia. intros e H. injection H as <-. left. reflexivity. }
  repeat split; cbn; try lia. intros e H.
  destruct (parse_raises _ _ H) as [Hv| ->]; [left | right; reflexivity].
  unfold caught. rewrite Hv. apply orb_true_r.
Qed.

(** X3. Whatever the line does, a query with retry count [R] writes its
    own command at most [max R 0] times and nothing else, sleeps the
    given delay less often than it writes, and performs at most two reads
    for each command written. *)
Theorem query_cost_bounds (p : param) (R : Z) (delay : Q) (rx : list bytes) :
  let t := trace (query p R delay rx) in
  exists k m,
    writes_of t = repeat (command p) k /\
    sleeps_of t = repeat delay m /\
    Z.of_nat k <= Z.max R 0 /\
    (m <= Nat.pred k)%nat /\
    (List.length (reads_of t) <= 2 * k)%nat.
Proof.
  intros t. subst t. rewrite query_retry.
  destruct (Z.le_gt_cases R 0) as [HR|HR].
  - rewrite range_nil by lia. exists O, O. cbn. repeat split; lia.
  - destruct (retry_bounds (query_try p) (command p)) with
      (n := Z.to_nat (R - 1)) (a := 1) (R := R) (d := delay) (rx := rx)
      as (k & m & Hw & Hs & Hk & Hm & Hr).
    + intros rx0. rewrite query_try_run. apply attempt_facts.
    + intros rx0. rewrite query_try_run. apply attempt_facts.
    + intros rx0. rewrite query_try_run. apply attempt_facts.
    + lia.
    + exists (S k), m. repeat split; try assumption; cbn [Nat.pred]; lia.
Qed.

(** X4. With a delay that [time.sleep] accepts (from zero to
    [sleep_max]), a query never lets a [TimeoutError] or a [ValueError]
    out: whatever it raises is either the exhausted-retries [RuntimeError]
    carrying the retry count and a cause of one of those two classes, or
    the [IndexError] of a blank second field. *)
Theorem query_raises_only (p : param) (R : Z) (delay : Q) (rx : list bytes)
    (e : exn) :
  (0 <= delay)%Q -> (delay <= sleep_max)%Q ->
  res (query p R delay rx) = Raises e ->
  e = IndexError \/
  exists cause,
    e = RuntimeError R cause /\
    (is_TimeoutError cause || is_ValueError cause) = true.
Proof.
  intros Hd0 Hmax H. pose proof (sleep_accepts delay Hd0 Hmax) as Hd.
  rewrite query_retry in H.
  destruct (Z.le_gt_cases R 0) as [HR|HR].
  - rewrite range_nil in H by lia. discriminate.
  - apply (retry_raises (query_try p)) with
      (n := Z.to_nat (R - 1)) (a := 1) (d := delay) (rx := rx);
      [| lia | exact Hd | exact H].
    intros rx0 e0. rewrite query_try_run. apply attempt_facts.
Qed.

(** A silent line under two retries. *)
Lemma query_raises_only_witness :
  RuntimeError 2 (TimeoutError "No echo received from scope") = IndexError \/
  exists cause,
    RuntimeError 2 (TimeoutError "No echo received from scope")
      = RuntimeError 2 cause /\
    (is_TimeoutError cause || is_ValueError cause) = true.
Proof.
  apply (query_raises_only Freq 2 (1 # 2) []).
  - unfold Qle. simpl. lia.
  - unfold Qle, sleep_max. simpl. lia.
  - vm_compute. reflexivity.
Defined.

(** X5. A delay that [time.sleep] refuses defeats the retry loop: when
    the first attempt fails in a way the loop would retry and more
    attempts are allowed, the query ends right there with the error of
    [time.sleep], after one command, with no second attempt and no
    [RuntimeError]. The error is the [ValueError] of a negative delay down
    to -9223372036 seconds, and [OverflowError] for a delay of 9223372037
    seconds or more on either side of zero. *)
Theorem negative_delay_aborts (p : param) (R : Z) (delay : Q)
    (rx : list bytes) (e : exn) :
  2 <= R ->
  res (query_try p rx) = Raises e -> caught e = true ->
  ((- (9223372036) <= delay)%Q -> (delay < 0)%Q ->
   query p R delay rx =
   Run (Raises (ValueError "sleep length must be non-negative"))
       (rest (query_try p rx))
       (trace (query_try p rx) ++ [PrintFailed 1 e])) /\
  ((delay <= - (9223372037))%Q \/ (9223372037 <= delay)%Q ->
   query p R delay rx =
   Run (Raises OverflowError)
       (rest (query_try p rx))
       (trace (query_try p rx) ++ [PrintFailed 1 e])).
Proof.
  intros HR Hres Hc. rewrite query_retry, range_cons by lia. split.
  - intros Hlo Hneg. apply retry_step_refused; try assumption; [lia|].
    apply sleep_error_negative; assumption.
  - intros Hout. apply retry_step_refused; try assumption; [lia|].
    apply sleep_error_overflow; assumption.
Qed.

(** A silent line and three retries, with a delay of minus half a second
    and with a delay of ten thousand million seconds. *)
Lemma negative_delay_aborts_witness :
  get_freq 3 (- 1 # 2) [] =
  Run (Raises (ValueError "sleep length must be non-negative")) []
      [SerialWrite cmd_freq; SerialRead [];
       PrintFailed 1 (TimeoutError "No echo received from scope")] /\
  get_freq 3 10000000000 [] =
  Run (Raises OverflowError) []
      [SerialWrite cmd_freq; SerialRead [];
       PrintFailed 1 (TimeoutError "No echo received from scope")].
Proof.
  split.
  - apply (proj1 (negative_delay_aborts Freq 3 (- 1 # 2) []
                    (TimeoutError "No echo received from scope")
                    ltac:(lia) ltac:(vm_compute; reflexivity) eq_refl)).
    + unfold Qle. simpl. lia.
    + reflexivity.
  - apply (proj2 (negative_delay_aborts Freq 3 10000000000 []
                    (TimeoutError "No echo received from scope")
                    ltac:(lia) ltac:(vm_compute; reflexivity) eq_refl)).
    right. unfold Qle. simpl. lia.
Defined.

(** ** Zero and NaN in the sweep *)

Lemma float_one_value : float_one = S754_finite false 4503599627370496 (-52).
Proof. vm_compute. reflexivity. Qed.

(** X6. A sweep step whose two queries answered raises
    [ZeroDivisionError] as soon as the measured frequency is zero or the
    reference period is zero: after the two queries, without autoset, and
    the two measurements are lost with the step. *)
Theorem zero_aborts_step (th : float) (i : Z) (st : sweep_state)
    (rx : list bytes) (f a : float) :
  res (get_freq 3 (1 # 2) rx) = Returns f ->
  res (get_ampl 3 (1 # 2) (rest (get_freq 3 (1 # 2) rx))) = Returns a ->
  is_zero f = true \/ is_zero (last_period st) = true ->
  sweep_step th i st rx =
  Run (Raises ZeroDivisionError)
      (rest (get_ampl 3 (1 # 2) (rest (get_freq 3 (1 # 2) rx))))
      ([GenSetFrequency 2 i; Sleep (1 # 2)]
         ++ trace (get_freq 3 (1 # 2) rx)
         ++ trace (get_ampl 3 (1 # 2) (rest (get_freq 3 (1 # 2) rx)))).
Proof.
  intros Hf Ha Hz. rewrite sweep_step_run. unfold step_run.
  rewrite Hf. cbv zeta. rewrite Ha.
  unfold period_change, truediv.
  destruct (is_zero f) eqn:Zf; [reflexivity|].
  destruct Hz as [Hz|Hz]; [discriminate|]. rewrite Hz. reflexivity.
Qed.

(** A reading of [inf] has period zero and moves the reference period
    there; the step after it divides by that zero. *)
Lemma zero_aborts_step_witness :
  let inf_line := blit "C1:PAVA FREQ,inf HZ,AV" ++ [CR] in
  let st0 := {| last_period := float_lit "0.0001"; freq := []; ampl := [] |} in
  let st1 := {| last_period := S754_zero false;
                freq := [S754_infinity false];
                ampl := [float_lit "10001.75"] |} in
  res (sweep_step (float_lit "0.4") 10000 st0
         ([stub_line; inf_line] ++ stub_rx 4)) = Returns st1 /\
  res (sweep_step (float_lit "0.4") 9900 st1 (stub_rx 4))
    = Raises ZeroDivisionError.
Proof.
  cbv zeta. split; [vm_compute; reflexivity|].
  rewrite (zero_aborts_step (float_lit "0.4") 9900 _ (stub_rx 4)
             (float_lit "10001.75") (float_lit "10001.75")).
  - reflexivity.
  - vm_compute. reflexivity.
  - vm_compute. reflexivity.
  - right. reflexivity.
Defined.

Lemma sweep_step_nonzero th i st rx st' :
  res (sweep_step th i st rx) = Returns st' ->
  is_zero (last_period st) = false /\
  exists f a,
    freq st' = freq st ++ [f] /\ ampl st' = ampl st ++ [a] /\
    is_zero f = false.
Proof.
  rewrite sweep_step_run. unfold step_run.
  destruct (res (get_freq 3 (1 # 2) rx)) as [f|]; [|discriminate].
  cbv zeta.
  destruct (res (get_ampl 3 (1 # 2) _)) as [a|]; [|discriminate].
  unfold period_change, truediv.
  destruct (is_zero f) eqn:Zf; [discriminate|].
  destruct (is_zero (last_period st)) eqn:Zp; [discriminate|].
  destruct (fge _ th).
  - destruct (res (send_query _ _)); [|discriminate].
    cbn [res]. intros H. injection H as <-.
    split; [reflexivity|]. exists f, a. repeat split. exact Zf.
  - cbn [res]. intros H. injection H as <-.
    split; [reflexivity|]. exists f, a. repeat split. exact Zf.
Qed.

(** X7. A sweep that completes has recorded no zero frequency, and it
    started (if it made any step) from a reference period that is not
    zero. *)
Theorem completed_sweep_has_no_zero (th : float) (steps : list Z)
    (st : sweep_state) (rx : list bytes) (st' : sweep_state) :
  res (sweep_loop th steps st rx) = Returns st' ->
  (steps <> [] -> is_zero (last_period st) = false) /\
  exists fs,
    freq st' = freq st ++ fs /\
    List.length fs = List.length steps /\
    Forall (fun f => is_zero f = false) fs.
Proof.
  revert st rx. induction steps as [|i later IH]; intros st rx H.
  - cbn in H. injection H as <-. split; [congruence|].
    exists []. rewrite app_nil_r. repeat split. constructor.
  - cbn [sweep_loop] in H. rewrite bind_run in H.
    destruct (res (sweep_step th i st rx)) as [st1|] eqn:Hstep;
      [|discriminate].
    destruct (sweep_step_nonzero _ _ _ _ _ Hstep)
      as (Zp & f & a & Hf & _ & Zf).
    cbn [res] in H. destruct (IH _ _ H) as (_ & fs & Hfs & Hlen & Hall).
    split; [intros _; exact Zp|].
    exists (f :: fs). rewrite Hfs, Hf, <- app_assoc.
    repeat split; [cbn; congruence | constructor; assumption].
Qed.

(** Two steps against the stub oscilloscope. *)
Lemma completed_sweep_has_no_zero_witness :
  let st0 := {| last_period := float_lit "0.0001"; freq := []; ampl := [] |} in
  exists fs,
    fs = [float_lit "10001.75"; float_lit "10001.75"] /\
    Forall (fun f => is_zero f = false) fs.
Proof.
  cbv zeta.
  destruct (completed_sweep_has_no_zero (float_lit "0.4") [10000; 9900]
              {| last_period := float_lit "0.0001"; freq := []; ampl := [] |}
              (stub_rx 12)
              {| last_period := float_lit "0.0001";
                 freq := [float_lit "10001.75"; float_lit "10001.75"];
                 ampl := [float_lit "10001.75"; float_lit "10001.75"] |})
    as (_ & fs & Hfs & _ & Hall).
  - vm_compute. reflexivity.
  - exists fs. split; [|exact Hall]. cbn [freq app] in Hfs. congruence.
Defined.

(** X8. A reading of [nan] is taken in silence: with a reference period
    that is not zero and whatever the threshold, the step appends the NaN
    to the frequencies, sends no autoset and leaves the reference period
    as it was. *)
Theorem nan_reading_is_recorded (th : float) (i : Z) (st : sweep_state)
    (rx : list bytes) (a : float) :
  res (get_freq 3 (1 # 2) rx) = Returns S754_nan ->
  res (get_ampl 3 (1 # 2) (rest (get_freq 3 (1 # 2) rx))) = Returns a ->
  is_zero (last_period st) = false ->
  sweep_step th i st rx =
  Run (Returns {| last_period := last_period st;
                  freq := freq st ++ [S754_nan];
                  ampl := ampl st ++ [a] |})
      (rest (get_ampl 3 (1 # 2) (rest (get_freq 3 (1 # 2) rx))))
      ([GenSetFrequency 2 i; Sleep (1 # 2)]
         ++ trace (get_freq 3 (1 # 2) rx)
         ++ trace (get_ampl 3 (1 # 2) (rest (get_freq 3 (1 # 2) rx)))).
Proof.
  intros Hf Ha Hz. rewrite sweep_step_run. unfold step_run.
  rewrite Hf. cbv zeta. rewrite Ha.
  unfold period_change, truediv. rewrite float_one_value.
  cbn [is_zero SFdiv]. rewrite Hz.
  unfold fsub, fabs, fge. cbn [SFsub SFabs SFdiv].
  destruct (last_period st); cbn [SFdiv]; destruct th; reflexivity.
Qed.

(** The stub answering [nan] to the frequency query. *)
Lemma nan_reading_is_recorded_witness :
  let nan_line := blit "C1:PAVA FREQ,nan HZ,AV" ++ [CR] in
  let st0 := {| last_period := float_lit "0.0001"; freq := []; ampl := [] |} in
  res (sweep_step (float_lit "0.4") 10000 st0
         ([stub_line; nan_line] ++ stub_rx 2))
  = Returns {| last_period := float_lit "0.0001";
               freq := [S754_nan];
               ampl := [float_lit "10001.75"] |}.
Proof.
  cbv zeta.
  rewrite (nan_reading_is_recorded (float_lit "0.4") 10000 _ _
             (float_lit "10001.75")).
  - reflexivity.
  - vm_compute. reflexivity.
  - vm_compute. reflexivity.
  - vm_compute. reflexivity.
Defined.

(** ** The whole run of [main] *)

Lemma main_run_shape rx : main rx = main_run rx.
Proof.
  unfold main, main_run. cbv zeta.
  generalize (range 10000 1000 (- (100))) as steps. intros steps.
  generalize (float_lit "0.4") as th. intros th.
  rewrite !bind_emit, main_last_period, bind_ret, bind_emit, bind_run,
    send_aset_run.
  generalize (float_lit "0.0001") as lp. intros lp.
  destruct (res (aset_run rx)); [|run_done].
  cbv zeta. rewrite bind_run, time_sleep_run by reflexivity.
  cbn [res rest trace]. rewrite bind_run.
  destruct (res (sweep_loop _ _ _ _)) as [st|]; [|run_done].
  run_done.
Qed.

Lemma forallb_weaken {A} (P Q : A -> bool) l :
  (forall x, P x = true -> Q x = true) ->
  forallb P l = true -> forallb Q l = true.
Proof.
  intros HPQ. induction l as [|x l IH]; [reflexivity|].
  cbn [forallb]. intros H. apply andb_true_iff in H as [Hx Hl].
  rewrite (HPQ x Hx), (IH Hl). reflexivity.
Qed.

Lemma query_no_plot p R d rx : forallb no_plot (trace (query p R d rx)) = true.
Proof.
  apply (forallb_weaken (query_event (command p))); [|apply query_events].
  intros ev. destruct ev; cbn; congruence.
Qed.

Lemma aset_no_plot rx : forallb no_plot (trace (aset_run rx)) = true.
Proof.
  unfold aset_run. destruct (decode (hd [] (tl rx))); reflexivity.
Qed.

Lemma query_raises_cases p R d rx e :
  sleep_error d = None -> res (query p R d rx) = Raises e ->
  e = IndexError \/ exists cause, e = RuntimeError R cause /\ caught cause = true.
Proof.
  intros Hd H. rewrite query_retry in H.
  destruct (Z.le_gt_cases R 0) as [HR|HR].
  - rewrite range_nil in H by lia. discriminate.
  - apply (retry_raises (query_try p)) with
      (n := Z.to_nat (R - 1)) (a := 1) (d := d) (rx := rx);
      [| lia | exact Hd | exact H].
    intros rx0 e0. rewrite query_try_run. apply attempt_facts.
Qed.

Lemma aset_raises rx e : res (aset_run rx) = Raises e -> e = UnicodeDecodeError.
Proof.
  unfold aset_run. destruct (decode (hd [] (tl rx))); cbn; congruence.
Qed.

(** Every step, however it ends: one frequency commanded, nothing
    plotted, and only the four ways out of [step_exn]. *)
Lemma sweep_step_any th i st rx :
  set_frequencies (trace (sweep_step th i st rx)) = [i] /\
  forallb no_plot (trace (sweep_step th i st rx)) = true /\
  (forall e, res (sweep_step th i st rx) = Raises e -> step_exn e).
Proof.
  rewrite sweep_step_run. unfold step_run.
  destruct (query_quiet Freq 3 (1 # 2) rx) as [Q1 _].
  destruct (query_quiet Ampl 3 (1 # 2) (rest (get_freq 3 (1 # 2) rx)))
    as [Q2 _].
  pose proof (query_no_plot Freq 3 (1 # 2) rx) as N1.
  pose proof (query_no_plot Ampl 3 (1 # 2) (rest (get_freq 3 (1 # 2) rx)))
    as N2.
  pose proof (query_raises_cases Freq 3 (1 # 2) rx) as E1.
  pose proof (query_raises_cases Ampl 3 (1 # 2)
                (rest (get_freq 3 (1 # 2) rx))) as E2.
  cbn [query] in Q1, Q2, N1, N2, E1, E2.
  assert (Hq : (0 <= 1 # 2)%Q) by (unfold Qle; simpl; lia).
  assert (Hexn : forall e,
             (e = IndexError \/
              exists cause, e = RuntimeError 3 cause /\ caught cause = true) ->
             step_exn e).
  { intros e [->|H]; unfold step_exn; auto. }
  destruct (res (get_freq 3 (1 # 2) rx)) as [f|e1].
  2: { cbn [res trace]. rewrite set_frequencies_app, forallb_app, Q1, N1.
       repeat split. intros e H. injection H as <-. apply Hexn, E1; auto. }
  cbv zeta.
  destruct (res (get_ampl 3 (1 # 2) _)) as [a|e2].
  2: { cbn [res trace].
       rewrite !set_frequencies_app, !forallb_app, Q1, Q2, N1, N2.
       repeat split. intros e H. injection H as <-. apply Hexn, E2; auto. }
  assert (Hzero : step_exn ZeroDivisionError) by (unfold step_exn; auto).
  destruct (truediv float_one f).
  2: { cbn [res trace].
       rewrite !set_frequencies_app, !forallb_app, Q1, Q2, N1, N2.
       repeat split. intros e H. injection H as <-. exact Hzero. }
  destruct (period_change (last_period st) f).
  2: { cbn [res trace].
       rewrite !set_frequencies_app, !forallb_app, Q1, Q2, N1, N2.
       repeat split. intros e H. injection H as <-. exact Hzero. }
  destruct (fge _ th).
  - rewrite send_aset_run.
    destruct (aset_run_quiet (rest (get_ampl 3 (1 # 2)
                                      (rest (get_freq 3 (1 # 2) rx)))))
      as [Q3 _].
    pose proof (aset_no_plot (rest (get_ampl 3 (1 # 2)
                                      (rest (get_freq 3 (1 # 2) rx))))) as N3.
    pose proof (aset_raises (rest (get_ampl 3 (1 # 2)
                                     (rest (get_freq 3 (1 # 2) rx))))) as E3.
    destruct (res (aset_run _)); cbn [res trace].
    + rewrite !set_frequencies_app, !forallb_app, Q1, Q2, Q3, N1, N2, N3.
      repeat split. discriminate.
    + rewrite !set_frequencies_app, !forallb_app, Q1, Q2, Q3, N1, N2, N3.
      repeat split. intros e0 H. injection H as <-.
      rewrite (E3 e eq_refl). unfold step_exn. auto.
  - cbn [res trace].
    rewrite !set_frequencies_app, !forallb_app, Q1, Q2, N1, N2.
    repeat split. discriminate.
Qed.

Lemma sweep_loop_any th steps : forall st rx,
  let r := sweep_loop th steps st rx in
  (exists k, (k <= List.length steps)%nat /\
             set_frequencies (trace r) = firstn k steps /\
             (forall st', res r = Returns st' -> k = List.length steps)) /\
  forallb no_plot (trace r) = true /\
  (forall e, res r = Raises e -> step_exn e).
Proof.
  induction steps as [|i later IH]; intros st rx r; subst r.
  - split; [exists O; repeat split; reflexivity|].
    split; [reflexivity | discriminate].
  - cbn [sweep_loop]. rewrite bind_run.
    destruct (sweep_step_any th i st rx) as (Hset & Hplot & Hexn).
    destruct (res (sweep_step th i st rx)) as [st1|e1].
    + cbv zeta. cbn [res trace].
      destruct (IH st1 (rest (sweep_step th i st rx)))
        as ((k & Hk & Hset' & Hall) & Hplot' & Hexn').
      split; [exists (S k)|split].
      * rewrite set_frequencies_app, Hset, Hset'. cbn [List.length firstn app].
        repeat split; [lia|]. intros st' H. rewrite (Hall st' H). reflexivity.
      * rewrite forallb_app, Hplot, Hplot'. reflexivity.
      * exact Hexn'.
    + cbn [res trace]. split; [exists 1%nat|split].
      * rewrite Hset. cbn [List.length firstn]. repeat split; [lia|].
        discriminate.
      * exact Hplot.
      * intros e H. injection H as <-. apply Hexn. reflexivity.
Qed.

Lemma no_plot_plots t : forallb no_plot t = true ->
  plots_of t = [] /\ ~ In PlotShow t.
Proof.
  induction t as [|ev t IH]; intros H; [split; [reflexivity | intros []]|].
  cbn [forallb] in H. apply andb_true_iff in H as [Hev Ht].
  destruct (IH Ht) as [Hp Hs].
  destruct ev; cbn in Hev; try discriminate; cbn; split; auto.
  all: intros [H|H]; [discriminate | exact (Hs H)].
Qed.

(** X9. [main] shows the plot exactly when it returns: a run that returns
    has plotted once and ends with [plt.show()]; a run that raises has
    plotted nothing and shown nothing. *)
Theorem main_plots_iff_returns (rx : list bytes) :
  (res (main rx) = Returns tt <-> In PlotShow (trace (main rx))) /\
  (res (main rx) = Returns tt ->
   exists fs amps, plots_of (trace (main rx)) = [(fs, amps)]) /\
  (forall e, res (main rx) = Raises e -> plots_of (trace (main rx)) = []).
Proof.
  rewrite main_run_shape. unfold main_run.
  generalize (range 10000 1000 (- (100))) as steps. intros steps.
  generalize (float_lit "0.4") as th. intros th.
  generalize (float_lit "0.0001") as lp. intros lp.
  cbv zeta.
  destruct (no_plot_plots _ (aset_no_plot rx)) as [P0 S0].
  destruct (res (aset_run rx)).
  2: { cbn [res trace app]. repeat split; try discriminate.
       - intros H. repeat (destruct H as [H|H]; [discriminate|]).
         contradiction.
       - intros e0 _. rewrite !plots_of_cons, P0. reflexivity. }
  destruct (sweep_loop_any th steps
              {| last_period := lp; freq := []; ampl := [] |} (rest (aset_run rx)))
    as (_ & Hplot & _).
  destruct (no_plot_plots _ Hplot) as [P1 S1].
  destruct (res (sweep_loop _ _ _ _)) as [st|e]; cbn [res trace app].
  - split; [split; [intros _ | reflexivity]|split; [|discriminate]].
    + do 5 right. apply in_or_app. right. right. apply in_or_app. right.
      do 4 right. left. reflexivity.
    + intros _. exists (freq st), (ampl st).
      rewrite !plots_of_cons, plots_of_app, plots_of_cons, plots_of_app, P0, P1.
      reflexivity.
  - split; [split; [discriminate|]|split; [discriminate|]].
    + intros H. repeat (destruct H as [H|H]; [discriminate|]).
      apply in_app_or in H. destruct H as [H|[H|H]];
        [contradiction | discriminate | contradiction].
    + intros e0 _.
      rewrite !plots_of_cons, plots_of_app, plots_of_cons, P0, P1.
      reflexivity.
Qed.

(** X10. Whatever the line does, [main] commands the generator to 5000,
    then to 10000, then to the step frequencies in their order, stopping
    at the step where a failure ends the run: the frequencies commanded
    are always a prefix of 5000, 10000, 10000, 9900, ..., 1100, the whole
    of it when [main] returns. *)
Theorem main_commands_a_prefix (rx : list bytes) :
  let plan := 5000 :: 10000 :: range 10000 1000 (- (100)) in
  exists k,
    (2 <= k <= List.length plan)%nat /\
    set_frequencies (trace (main rx)) = firstn k plan /\
    (res (main rx) = Returns tt -> k = List.length plan).
Proof.
  rewrite main_run_shape. unfold main_run.
  generalize (range 10000 1000 (- (100))) as steps. intros steps.
  generalize (float_lit "0.4") as th. intros th.
  generalize (float_lit "0.0001") as lp. intros lp.
  cbv zeta.
  destruct (aset_run_quiet rx) as [Q0 _].
  destruct (res (aset_run rx)).
  2: { exists 2%nat. cbn [res trace app List.length].
       rewrite !set_frequencies_cons, Q0. repeat split; try lia.
       discriminate. }
  destruct (sweep_loop_any th steps
              {| last_period := lp; freq := []; ampl := [] |} (rest (aset_run rx)))
    as ((k & Hk & Hset & Hall) & _ & _).
  exists (S (S k)).
  destruct (res (sweep_loop _ _ _ _)) as [st|e];
    cbn [res trace app List.length].
  - rewrite !set_frequencies_cons, set_frequencies_app, set_frequencies_cons,
      set_frequencies_app, Q0, Hset.
    cbn [app set_frequencies flat_map firstn].
    rewrite app_nil_r. repeat split; try lia.
    intros _. rewrite (Hall st eq_refl). reflexivity.
  - rewrite !set_frequencies_cons, set_frequencies_app, set_frequencies_cons,
      Q0, Hset.
    cbn [app firstn]. repeat split; try lia. discriminate.
Qed.

(** X11. [main] can only end in four ways other than returning: the
    [UnicodeDecodeError] of an autoset response that is not UTF-8, the
    [IndexError] of a blank second field, the [ZeroDivisionError] of a
    zero frequency or reference period, or the [RuntimeError] of three
    failed attempts, whose cause is a [TimeoutError] or a [ValueError].
    No [TimeoutError] or [ValueError] leaves it as such. *)
Theorem main_raises_only (rx : list bytes) (e : exn) :
  res (main rx) = Raises e ->
  e = UnicodeDecodeError \/ e = IndexError \/ e = ZeroDivisionError \/
  exists cause,
    e = RuntimeError 3 cause /\
    (is_TimeoutError cause || is_ValueError cause) = true.
Proof.
  rewrite main_run_shape. unfold main_run.
  generalize (range 10000 1000 (- (100))) as steps. intros steps.
  generalize (float_lit "0.4") as th. intros th.
  generalize (float_lit "0.0001") as lp. intros lp.
  cbv zeta.
  pose proof (aset_raises rx) as E0.
  destruct (res (aset_run rx)) as [answer|e0].
  2: { cbn [res]. intros H. injection H as <-. left. apply E0. reflexivity. }
  destruct (sweep_loop_any th steps
              {| last_period := lp; freq := []; ampl := [] |} (rest (aset_run rx)))
    as (_ & _ & Hexn).
  destruct (res (sweep_loop _ _ _ _)) as [st|e1]; cbn [res]; [discriminate|].
  intros H. injection H as <-. apply (Hexn e1 eq_refl).
Qed.

(** A line that falls silent after the first autoset. *)
Lemma main_raises_only_witness :
  res (main (stub_rx 2))
    = Raises (RuntimeError 3 (TimeoutError "No echo received from scope")) /\
  (RuntimeError 3 (TimeoutError "No echo received from scope")
     = UnicodeDecodeError \/
   RuntimeError 3 (TimeoutError "No echo received from scope") = IndexError \/
   RuntimeError 3 (TimeoutError "No echo received from scope")
     = ZeroDivisionError \/
   exists cause,
     RuntimeError 3 (TimeoutError "No echo received from scope")
       = RuntimeError 3 cause /\
     (is_TimeoutError cause || is_ValueError cause) = true).
Proof.
  assert (H : res (main (stub_rx 2))
              = Raises (RuntimeError 3
                          (TimeoutError "No echo received from scope"))).
  { vm_compute. reflexivity. }
  split; [exact H|]. exact (main_raises_only (stub_rx 2) _ H).
Defined.

(** ** The loop bounds *)

(** X12. A descending loop [range(hi, lo, -step)] with a positive step
    visits exactly the values [hi - k * step], [k >= 0], that are above
    [lo]: [hi] itself when it is above [lo], and never [lo] or anything
    below it; as many of them as the rounded-up quotient of [hi - lo] by
    [step]. *)
Theorem range_down_members (hi lo step x : Z) :
  0 < step ->
  (In x (range hi lo (- step))
   <-> exists k, 0 <= k /\ x = hi - k * step /\ lo < x) /\
  (In hi (range hi lo (- step)) <-> lo < hi) /\
  ~ In lo (range hi lo (- step)) /\
  Z.of_nat (List.length (range hi lo (- step)))
    = Z.max 0 ((hi - lo + step - 1) / step).
Proof.
  intros Hstep.
  assert (Hlen : range_len hi lo (- step)
                 = Z.max 0 ((hi - lo + step - 1) / step)).
  { unfold range_len. destruct (Z.ltb_spec 0 (- step)); [lia|].
    rewrite Z.opp_involutive.
    destruct (Z.ltb_spec lo hi).
    - replace (hi - lo + step - 1) with ((hi - lo - 1) + 1 * step) by lia.
      rewrite Z.div_add by lia.
      pose proof (Z.div_pos (hi - lo - 1) step). lia.
    - assert ((hi - lo + step - 1) / step <= 0); [|lia].
      apply Z.lt_succ_r. apply Z.div_lt_upper_bound; lia. }
  assert (Hmem : forall y,
             In y (range hi lo (- step))
             <-> exists k, 0 <= k /\ y = hi - k * step /\ lo < y).
  { intros y. unfold range. rewrite in_map_iff. split.
    - intros (k & <- & Hk). apply in_seq in Hk. exists (Z.of_nat k).
      split; [lia|]. split; [lia|].
      assert (Z.of_nat k < range_len hi lo (- step)) as Hlt by lia.
      rewrite Hlen in Hlt.
      assert (Z.of_nat k < (hi - lo + step - 1) / step) as Hdiv by lia.
      assert (Z.of_nat k * step + step <= hi - lo + step - 1); [|lia].
      pose proof (Z.mul_div_le (hi - lo + step - 1) step Hstep).
      nia.
    - intros (k & Hk & -> & Hlo). exists (Z.to_nat k).
      split; [lia|]. apply in_seq. split; [lia|].
      cbn [Nat.add]. apply Nat2Z.inj_lt. rewrite Z2Nat.id by lia.
      rewrite Z2Nat.id by (rewrite Hlen; lia). rewrite Hlen.
      assert (k + 1 <= (hi - lo + step - 1) / step); [|lia].
      apply Z.div_le_lower_bound; nia. }
  split; [apply Hmem|]. split; [|split].
  - rewrite Hmem. split.
    + intros (k & _ & _ & H). exact H.
    + intros H. exists 0. repeat split; lia.
  - rewrite Hmem. intros (k & _ & _ & H). lia.
  - unfold range. rewrite length_map, length_seq, Z2Nat.id by (rewrite Hlen; lia).
    exact Hlen.
Qed.

(** The sweep of [main]: 1100 is visited, 1000 is not. *)
Lemma range_down_members_witness :
  In 1100 (range 10000 1000 (- (100))) /\
  ~ In 1000 (range 10000 1000 (- (100))) /\
  Z.of_nat (List.length (range 10000 1000 (- (100)))) = 90.
Proof.
  destruct (range_down_members 10000 1000 100 1100) as (H1 & _ & H3 & H4);
    [lia|].
  split; [|split; [exact H3 | exact H4]].
  apply H1. exists 89. repeat split; lia.
Defined.

(** ** [send_query] and the bytes on the wire *)

Transparent decode strip.

Lemma decode_nothing : decode [] = Some [].
Proof. reflexivity. Qed.

Lemma strip_nothing : strip [] = [].
Proof. reflexivity. Qed.

Lemma byte_val_of_Z z : 0 <= z < 256 -> byte_val (byte_of_Z z) = z.
Proof.
  intros Hz. unfold byte_val, byte_of_Z.
  destruct (Byte.of_N (Z.to_N z)) as [b|] eqn:E.
  - apply Byte.to_of_N in E. rewrite E. lia.
  - apply Byte.of_N_None_iff in E. lia.
Qed.

Lemma in_range_true lo hi c : lo <= c <= hi -> in_range lo hi c = true.
Proof.
  intros H. unfold in_range.
  rewrite (proj2 (Z.leb_le lo c)), (proj2 (Z.leb_le c hi)) by lia.
  reflexivity.
Qed.

Lemma in_range_false lo hi c : c < lo \/ hi < c -> in_range lo hi c = false.
Proof.
  intros H. unfold in_range.
  destruct (Z.leb_spec lo c), (Z.leb_spec c hi); try reflexivity. lia.
Qed.

Lemma utf8_decode_1 b0 more :
  b0 < 128 ->
  utf8_decode (b0 :: more) = option_map (cons b0) (utf8_decode more).
Proof.
  intros H. destruct more; simpl utf8_decode;
    rewrite (proj2 (Z.ltb_lt b0 128)) by lia; reflexivity.
Qed.

Lemma utf8_decode_2 b0 b1 more :
  194 <= b0 <= 223 -> 128 <= b1 <= 191 ->
  utf8_decode (b0 :: b1 :: more)
  = option_map (cons ((b0 - 192) * 64 + (b1 - 128))) (utf8_decode more).
Proof.
  intros H0 H1. simpl utf8_decode. unfold is_cont.
  rewrite (proj2 (Z.ltb_ge b0 128)) by lia.
  rewrite (in_range_true 194 223 b0), (in_range_true 128 191 b1) by lia.
  reflexivity.
Qed.

Lemma utf8_decode_3 b0 b1 b2 more :
  224 <= b0 <= 239 ->
  (if b0 =? 224 then 160 else 128) <= b1
    <= (if b0 =? 237 then 159 else 191) ->
  128 <= b2 <= 191 ->
  utf8_decode (b0 :: b1 :: b2 :: more)
  = option_map (cons ((b0 - 224) * 4096 + (b1 - 128) * 64 + (b2 - 128)))
               (utf8_decode more).
Proof.
  intros H0 H1 H2. simpl utf8_decode. unfold is_cont.
  rewrite (proj2 (Z.ltb_ge b0 128)) by lia.
  rewrite (in_range_false 194 223 b0), (in_range_true 224 239 b0) by lia.
  rewrite (in_range_true _ _ b1 H1), (in_range_true 128 191 b2) by lia.
  reflexivity.
Qed.

Lemma utf8_decode_4 b0 b1 b2 b3 more :
  240 <= b0 <= 244 ->
  (if b0 =? 240 then 144 else 128) <= b1
    <= (if b0 =? 244 then 143 else 191) ->
  128 <= b2 <= 191 -> 128 <= b3 <= 191 ->
  utf8_decode (b0 :: b1 :: b2 :: b3 :: more)
  = option_map (cons ((b0 - 240) * 262144 + (b1 - 128) * 4096
                      + (b2 - 128) * 64 + (b3 - 128)))
               (utf8_decode more).
Proof.
  intros H0 H1 H2 H3. simpl utf8_decode. unfold is_cont.
  rewrite (proj2 (Z.ltb_ge b0 128)) by lia.
  rewrite (in_range_false 194 223 b0), (in_range_false 224 239 b0),
    (in_range_true 240 244 b0) by lia.
  rewrite (in_range_true _ _ b1 H1), (in_range_true 128 191 b2),
    (in_range_true 128 191 b3) by lia.
  reflexivity.
Qed.

Lemma some_eq {A} (x y : A) : Some x = Some y -> y = x.
Proof. congruence. Qed.

Lemma utf8_char_roundtrip c bs more :
  utf8_encode_char c = Some bs ->
  utf8_decode (bs ++ more) = option_map (cons c) (utf8_decode more) /\
  Forall (fun b => 0 <= b < 256) bs.
Proof.
  unfold utf8_encode_char, in_range.
  assert (E1 : c / 4096 = c / 64 / 64)
    by (rewrite Z.div_div by lia; reflexivity).
  assert (E2 : c / 262144 = c / 64 / 64 / 64)
    by (rewrite !Z.div_div by lia; reflexivity).
  rewrite E1, E2. clear E1 E2.
  pose proof (Z.div_mod c 64 ltac:(lia)) as D1.
  pose proof (Z.mod_pos_bound c 64 ltac:(lia)) as B1.
  pose proof (Z.div_mod (c / 64) 64 ltac:(lia)) as D2.
  pose proof (Z.mod_pos_bound (c / 64) 64 ltac:(lia)) as B2.
  pose proof (Z.div_mod (c / 64 / 64) 64 ltac:(lia)) as D3.
  pose proof (Z.mod_pos_bound (c / 64 / 64) 64 ltac:(lia)) as B3.
  revert D1 B1 D2 B2 D3 B3.
  generalize (c mod 64) as r1, ((c / 64) mod 64) as r2,
    ((c / 64 / 64) mod 64) as r3, (c / 64 / 64 / 64) as q3.
  generalize (c / 64 / 64) as q2. generalize (c / 64) as q1.
  intros q1 q2 r1 r2 r3 q3 D1 B1 D2 B2 D3 B3.
  destruct (Z.ltb_spec c 0) as [C0|C0]; [discriminate|].
  destruct (Z.ltb_spec c 128) as [C1|C1].
  { intros E. apply some_eq in E. subst bs. split; [|repeat (apply Forall_cons; [lia|]); apply Forall_nil].
    apply utf8_decode_1. lia. }
  destruct (Z.ltb_spec c 2048) as [C2|C2].
  { intros E. apply some_eq in E. subst bs. split; [|repeat (apply Forall_cons; [lia|]); apply Forall_nil].
    cbn [app]. rewrite utf8_decode_2 by lia. f_equal. f_equal. lia. }
  destruct (Z.leb_spec 55296 c) as [C3|C3];
    destruct (Z.leb_spec c 57343) as [C4|C4]; cbn [andb];
    try discriminate.
  all: destruct (Z.ltb_spec c 65536) as [C5|C5].
  all: try (destruct (Z.ltb_spec c 1114112) as [C6|C6]; [|discriminate]).
  all: intros E; apply some_eq in E; subst bs; (split; [|repeat (apply Forall_cons; [lia|]); apply Forall_nil]).
  all: cbn [app].
  all: try (rewrite utf8_decode_3;
            [f_equal; f_equal; lia | lia
            | destruct (Z.eqb_spec (224 + q2) 224),
                (Z.eqb_spec (224 + q2) 237); lia | lia]).
  all: try (rewrite utf8_decode_4;
            [f_equal; f_equal; lia | lia
            | destruct (Z.eqb_spec (240 + q3) 240),
                (Z.eqb_spec (240 + q3) 244); lia | lia | lia]).
Qed.

Lemma map_byte_val_of_Z bs :
  Forall (fun b => 0 <= b < 256) bs -> map byte_val (map byte_of_Z bs) = bs.
Proof.
  induction 1 as [|b bs Hb _ IH]; [reflexivity|].
  cbn [map]. rewrite byte_val_of_Z by exact Hb. rewrite IH. reflexivity.
Qed.

Lemma encode_decode (s : str) : forall data,
  encode s = Some data -> decode data = Some s.
Proof.
  unfold decode. induction s as [|c s IH]; intros data H.
  - cbn in H. apply some_eq in H. subst data. reflexivity.
  - cbn [encode] in H.
    destruct (utf8_encode_char c) as [bs|] eqn:Hc; [|discriminate].
    destruct (encode s) as [tail|]; [|discriminate].
    apply some_eq in H. subst data.
    destruct (utf8_char_roundtrip c bs (map byte_val tail) Hc) as [Hd Hb].
    rewrite map_app, (map_byte_val_of_Z bs Hb), Hd, (IH tail eq_refl).
    reflexivity.
Qed.

Lemma encode_app (s t : str) :
  encode (s ++ t) =
  match encode s, encode t with
  | Some a, Some b => Some (a ++ b)
  | _, _ => None
  end.
Proof.
  induction s as [|c s IH].
  - cbn [app encode]. destruct (encode t); reflexivity.
  - cbn [app encode]. rewrite IH.
    destruct (utf8_encode_char c), (encode s), (encode t);
      rewrite ?app_assoc; reflexivity.
Qed.

Lemma utf8_encode_char_none c :
  utf8_encode_char c = None <->
  c < 0 \/ 55296 <= c <= 57343 \/ 1114112 <= c.
Proof.
  unfold utf8_encode_char, in_range.
  destruct (Z.ltb_spec c 0); [intuition lia|].
  destruct (Z.ltb_spec c 128); [split; [discriminate | lia]|].
  destruct (Z.ltb_spec c 2048); [split; [discriminate | lia]|].
  destruct (Z.leb_spec 55296 c), (Z.leb_spec c 57343); cbn [andb];
    try (intuition lia).
  all: destruct (Z.ltb_spec c 65536); [split; [discriminate | lia]|].
  all: destruct (Z.ltb_spec c 1114112); [split; [discriminate | lia]|].
  all: intuition lia.
Qed.

Lemma encode_none (s : str) :
  encode s = None <->
  Exists (fun c => c < 0 \/ 55296 <= c <= 57343 \/ 1114112 <= c) s.
Proof.
  induction s as [|c s IH].
  - split; [discriminate | intros H; inversion H].
  - cbn [encode]. rewrite Exists_cons, <- IH, <- utf8_encode_char_none.
    destruct (utf8_encode_char c), (encode s); intuition congruence.
Qed.

Opaque decode strip.

Lemma send_query_run command rx :
  send_query command rx = query_line_run command rx.
Proof.
  unfold send_query, query_line_run, serial_reset_input_buffer, serial_write.
  rewrite bind_emit.
  destruct (encode command) as [data|]; cbn [or_raise].
  - rewrite bind_ret, bind_emit, !bind_read. unfold bytes_decode.
    destruct (decode (hd [] (tl rx))) as [text|]; cbn [or_raise].
    + rewrite bind_ret. reflexivity.
    + rewrite bind_raise. reflexivity.
  - rewrite bind_raise. reflexivity.
Qed.

(** X13. [send_query] has no timeout of its own: for a command that
    encodes, it always performs its two reads and drops the echo unread
    (whatever the echo is, the outcome is the same); the only exception it
    can raise is the [UnicodeDecodeError] of a response that is not UTF-8,
    and a response read that timed out makes it return the empty
    string. *)
Theorem send_query_ignores_silence (command : str) (data : bytes)
    (rx : list bytes) :
  encode command = Some data ->
  let r := send_query command rx in
  reads_of (trace r) = [hd [] rx; hd [] (tl rx)] /\
  rest r = tl (tl rx) /\
  (forall e, res r = Raises e -> e = UnicodeDecodeError) /\
  (hd [] (tl rx) = [] -> res r = Returns []) /\
  (forall echo, res (send_query command (echo :: tl rx)) = res r).
Proof.
  intros Henc r. subst r. rewrite send_query_run.
  unfold query_line_run. rewrite Henc. cbv zeta. cbn [res rest trace].
  split; [reflexivity|]. split; [reflexivity|]. split; [|split].
  - intros e. destruct (decode (hd [] (tl rx))); congruence.
  - intros ->. rewrite decode_nothing, strip_nothing. reflexivity.
  - intros echo. rewrite send_query_run. unfold query_line_run.
    rewrite Henc. reflexivity.
Qed.

(** Autoset on a line that stays silent. *)
Lemma send_query_ignores_silence_witness :
  send_query (lit "aset") [] =
  Run (Returns []) []
      [SerialResetInput; SerialWrite aset_command; SerialRead [];
       SerialRead []].
Proof.
  destruct (send_query_ignores_silence (lit "aset") (blit "aset") [])
    as (_ & _ & _ & Hres & _); [reflexivity|].
  specialize (Hres eq_refl).
  rewrite <- (run_eta (send_query (lit "aset") [])), Hres.
  reflexivity.
Defined.

(** X14. What [send_query] puts on the wire is the command followed by a
    carriage return, in UTF-8: decoding the bytes written gives the
    command and ["\r"] back. A command that cannot be encoded (a code
    point that is a surrogate or outside Unicode) raises
    [UnicodeEncodeError] after the input buffer was reset and before
    anything is written or read. *)
Theorem send_query_wire_format (command : str) (rx : list bytes) :
  let r := send_query command rx in
  match encode command with
  | Some data =>
      hd_error (trace r) = Some SerialResetInput /\
      writes_of (trace r) = [data ++ [CR]] /\
      decode (data ++ [CR]) = Some (command ++ [13])
  | None =>
      r = Run (Raises UnicodeEncodeError) rx [SerialResetInput] /\
      Exists (fun c => c < 0 \/ 55296 <= c <= 57343 \/ 1114112 <= c) command
  end.
Proof.
  intros r. subst r. rewrite send_query_run. unfold query_line_run.
  destruct (encode command) as [data|] eqn:Henc.
  - cbv zeta. cbn [trace]. split; [reflexivity|]. split; [reflexivity|].
    apply encode_decode. rewrite encode_app, Henc. reflexivity.
  - split; [reflexivity|]. apply encode_none. exact Henc.
Qed.

(** ** The reference period and the order of the reads *)

Lemma some_returns {A} (x y : A) : Returns x = Returns y -> y = x.
Proof. congruence. Qed.

Lemma sweep_step_period th i st rx st' :
  res (sweep_step th i st rx) = Returns st' ->
  exists f a,
    freq st' = freq st ++ [f] /\ ampl st' = ampl st ++ [a] /\
    (last_period st' = last_period st \/
     last_period st' = SFdiv prec emax float_one f).
Proof.
  rewrite sweep_step_run. unfold step_run.
  destruct (res (get_freq 3 (1 # 2) rx)) as [f|]; [|discriminate].
  cbv zeta.
  destruct (res (get_ampl 3 (1 # 2) _)) as [a|]; [|discriminate].
  unfold truediv at 1.
  destruct (is_zero f); [discriminate|].
  destruct (period_change (last_period st) f); [|discriminate].
  destruct (fge _ th).
  - destruct (res (send_query _ _)); [|discriminate].
    cbn [res]. intros H. apply some_returns in H. subst st'.
    exists f, a. cbn. auto.
  - cbn [res]. intros H. apply some_returns in H. subst st'.
    exists f, a. cbn. auto.
Qed.

(** X15. The reference period of the drift rule is always tied to the
    data: after a sweep that completes it is either the period the sweep
    started with or [1.0 / f] for one of the frequencies [f] that the
    sweep recorded. *)
Theorem reference_period_is_measured (th : float) (steps : list Z)
    (st : sweep_state) (rx : list bytes) (st' : sweep_state) :
  res (sweep_loop th steps st rx) = Returns st' ->
  exists fs,
    freq st' = freq st ++ fs /\
    (last_period st' = last_period st \/
     exists f, In f fs /\ last_period st' = SFdiv prec emax float_one f).
Proof.
  revert st rx. induction steps as [|i later IH]; intros st rx H.
  - cbn in H. apply some_returns in H. subst st'.
    exists []. rewrite app_nil_r. auto.
  - cbn [sweep_loop] in H. rewrite bind_run in H.
    destruct (res (sweep_step th i st rx)) as [st1|] eqn:Hstep;
      [|discriminate].
    destruct (sweep_step_period _ _ _ _ _ Hstep) as (f & a & Hf & _ & Hp).
    cbn [res] in H. destruct (IH _ _ H) as (fs & Hfs & Hp').
    exists (f :: fs). rewrite Hfs, Hf, <- app_assoc. split; [reflexivity|].
    destruct Hp' as [Hsame|(g & Hg & Hlast)].
    + rewrite Hsame. destruct Hp as [Hp|Hp]; [left; exact Hp|].
      right. exists f. split; [left; reflexivity | exact Hp].
    + right. exists g. split; [right; exact Hg | exact Hlast].
Qed.

(** One step at the threshold: the reference period becomes the period of
    the frequency just recorded. *)
Lemma reference_period_is_measured_witness :
  let st := {| last_period := float_lit "1.0"; freq := []; ampl := [] |} in
  let line := blit "C1:PAVA FREQ,1.6666666666666667 HZ,AV" ++ [CR] in
  exists fs,
    freq {| last_period := float_lit "0.6";
            freq := [float_lit "1.6666666666666667"];
            ampl := [float_lit "1.6666666666666667"] |} = freq st ++ fs /\
    (float_lit "0.6" = last_period st \/
     exists f, In f fs /\ float_lit "0.6" = SFdiv prec emax float_one f).
Proof.
  cbv zeta.
  apply (reference_period_is_measured (float_lit "0.4") [7000]
           {| last_period := float_lit "1.0"; freq := []; ampl := [] |}
           (repeat (blit "C1:PAVA FREQ,1.6666666666666667 HZ,AV" ++ [CR]) 6)
           {| last_period := float_lit "0.6";
              freq := [float_lit "1.6666666666666667"];
              ampl := [float_lit "1.6666666666666667"] |}).
  vm_compute. reflexivity.
Defined.

Lemma retry_trace_starts (body : M float) a later R d rx :
  exists t, trace (retry_for body (a :: later) R d rx) = trace (body rx) ++ t.
Proof.
  cbn [retry_for]. unfold try_except.
  destruct (res (body rx)) as [v|e].
  - exists []. rewrite app_nil_r. reflexivity.
  - destruct (caught e).
    + eexists. reflexivity.
    + exists []. rewrite app_nil_r. reflexivity.
Qed.

(** X16. A query never resets the input buffer, and each attempt reads on
    where the one before stopped. So when the response of the first
    attempt comes too late (its read timed out), the second attempt (made
    after a delay that [time.sleep] accepts, from zero to [sleep_max])
    takes that late response for its echo. *)
Theorem late_response_is_taken_as_echo (p : param) (R : Z) (delay : Q)
    (echo late : bytes) (more : list bytes) (echo_text late_text : str) :
  2 <= R -> (0 <= delay)%Q -> (delay <= sleep_max)%Q ->
  echo <> [] -> decode echo = Some echo_text ->
  late <> [] -> decode late = Some late_text ->
  let r := query p R delay (echo :: [] :: late :: more) in
  ~ In SerialResetInput (trace r) /\
  exists t,
    trace r =
    [SerialWrite (command p); SerialRead echo; PrintEcho (strip echo_text);
     SerialRead [];
     PrintFailed 1 (TimeoutError "No response received from scope");
     Sleep delay;
     SerialWrite (command p); SerialRead late; PrintEcho (strip late_text)]
      ++ t.
Proof.
  intros HR Hd0 Hmax He Hde Hl Hdl r. subst r.
  pose proof (sleep_accepts delay Hd0 Hmax) as Hd. split.
  - pose proof (query_events p R delay (echo :: [] :: late :: more)) as Hev.
    intros Hin. rewrite forallb_forall in Hev.
    specialize (Hev _ Hin). discriminate.
  - rewrite query_retry, range_cons by lia.
    assert (H1 : query_try p (echo :: [] :: late :: more) =
                 Run (Raises (TimeoutError "No response received from scope"))
                     (late :: more)
                     [SerialWrite (command p); SerialRead echo;
                      PrintEcho (strip echo_text); SerialRead []]).
    { rewrite query_try_run. unfold attempt_run. cbn [hd tl].
      destruct echo; [congruence|]. cbn [is_empty]. rewrite Hde.
      reflexivity. }
    rewrite (retry_step_again _ _ _ _ _ _
               (TimeoutError "No response received from scope"))
      by (try rewrite H1; try reflexivity; try lia; exact Hd).
    rewrite H1. cbn [res rest trace]. rewrite range_cons by lia.
    destruct (retry_trace_starts (query_try p) (1 + 1)
                (range (1 + 1 + 1) (R + 1) 1) R delay (late :: more))
      as (t & Ht).
    rewrite Ht, query_try_run. unfold attempt_run. cbn [hd tl].
    destruct late as [|b late']; [congruence|]. cbn [is_empty]. rewrite Hdl.
    destruct (is_empty (hd [] more)); cbn [trace app];
      [eexists; reflexivity|].
    destruct (decode (hd [] more)); cbn [trace app]; eexists; reflexivity.
Qed.

(** The echo comes, the response comes one read too late. *)
Lemma late_response_is_taken_as_echo_witness :
  let r := get_freq 3 (1 # 2) [stub_line; []; stub_line; stub_line] in
  ~ In SerialResetInput (trace r) /\
  exists t,
    trace r =
    [SerialWrite cmd_freq; SerialRead stub_line;
     PrintEcho (strip (lit "C1:PAVA FREQ,10.00175E+3 HZ,AV" ++ [13]));
     SerialRead [];
     PrintFailed 1 (TimeoutError "No response received from scope");
     Sleep (1 # 2);
     SerialWrite cmd_freq; SerialRead stub_line;
     PrintEcho (strip (lit "C1:PAVA FREQ,10.00175E+3 HZ,AV" ++ [13]))]
      ++ t.
Proof.
  apply (late_response_is_taken_as_echo Freq 3 (1 # 2) stub_line stub_line
           [stub_line]).
  - lia.
  - unfold Qle. simpl. lia.
  - unfold Qle, sleep_max. simpl. lia.
  - discriminate.
  - vm_compute. reflexivity.
  - discriminate.
  - vm_compute. reflexivity.
Defined.

(** ** A sweep over a steady line *)

Opaque decode strip parse_frequency cmd_freq cmd_ampl.

(** Once the reference period is the period of the reading itself, the
    change is zero (or [nan]) and stays below any positive threshold. *)
Lemma period_settled th v :
  fgt th (S754_zero false) = true ->
  is_zero v = false ->
  is_zero (SFdiv prec emax float_one v) = false ->
  exists change,
    period_change (SFdiv prec emax float_one v) v = Some change /\
    fge change th = false.
Proof.
  intros Hth Hv Hcp. unfold period_change, truediv. rewrite Hv, Hcp.
  eexists. split; [reflexivity|].
  generalize dependent (SFdiv prec emax float_one v). intros cp Hcp.
  assert (Hzero : forall s, fge (S754_zero s) th = false).
  { intros s. destruct th as [| [|] | | [|] ]; cbn in *; congruence. }
  destruct cp as [s|s| |s m e]; try discriminate.
  - unfold fsub, fabs, fge. destruct s; cbn; destruct th; reflexivity.
  - unfold fge. cbn. destruct th; reflexivity.
  - unfold fsub, SFsub. rewrite Z.sub_diag.
    change (binary_normalize prec emax 0 (Z.min e e) false)
      with (S754_zero false).
    cbn [fabs SFabs SFdiv]. apply Hzero.
Qed.

(** A line on which every read gives the same well-formed response. *)
Section Steady.
Variable l : bytes.
Variable text : str.
Variable v : float.
Hypothesis line_not_empty : l <> [].
Hypothesis line_decodes : decode l = Some text.
Hypothesis line_parses : parse_frequency (strip text) = Returns v.
Hypothesis reading_not_zero : is_zero v = false.

Lemma steady_query p n :
  query p 3 (1 # 2) (repeat l (2 + n)) =
  Run (Returns v) (repeat l n)
      [SerialWrite (command p); SerialRead l; PrintEcho (strip text);
       SerialRead l; PrintResponse (strip text)].
Proof.
  assert (H : query_try p (repeat l (2 + n)) =
              Run (Returns v) (repeat l n)
                  [SerialWrite (command p); SerialRead l;
                   PrintEcho (strip text); SerialRead l;
                   PrintResponse (strip text)]).
  { rewrite query_try_run. unfold attempt_run. cbn [Nat.add repeat hd tl].
    destruct l; [congruence|]. cbn [is_empty].
    rewrite line_decodes, line_parses. reflexivity. }
  rewrite query_retry, range_cons by lia.
  rewrite (retry_step_returns _ _ _ _ _ _ v) by (rewrite H; reflexivity).
  exact H.
Qed.

Lemma steady_get_freq n :
  get_freq 3 (1 # 2) (repeat l (2 + n)) =
  Run (Returns v) (repeat l n)
      [SerialWrite cmd_freq; SerialRead l; PrintEcho (strip text);
       SerialRead l; PrintResponse (strip text)].
Proof. exact (steady_query Freq n). Qed.

Lemma steady_get_ampl n :
  get_ampl 3 (1 # 2) (repeat l (2 + n)) =
  Run (Returns v) (repeat l n)
      [SerialWrite cmd_ampl; SerialRead l; PrintEcho (strip text);
       SerialRead l; PrintResponse (strip text)].
Proof. exact (steady_query Ampl n). Qed.

Lemma steady_aset n :
  send_query (lit "aset") (repeat l (2 + n)) =
  Run (Returns (strip text)) (repeat l n)
      [SerialResetInput; SerialWrite aset_command; SerialRead l;
       SerialRead l].
Proof.
  rewrite send_aset_run. unfold aset_run. cbn [Nat.add repeat hd tl].
  rewrite line_decodes. reflexivity.
Qed.

Lemma steady_step_quiet th i st n change :
  period_change (last_period st) v = Some change ->
  fge change th = false ->
  sweep_step th i st (repeat l (4 + n)) =
  Run (Returns {| last_period := last_period st;
                  freq := freq st ++ [v]; ampl := ampl st ++ [v] |})
      (repeat l n) (steady_events l text i).
Proof.
  intros Hchange Hge. rewrite sweep_step_run. unfold step_run.
  replace (4 + n)%nat with (2 + (2 + n))%nat by reflexivity.
  rewrite steady_get_freq. cbn [res rest trace].
  rewrite steady_get_ampl. cbn [res rest trace].
  rewrite Hchange, Hge. unfold truediv at 1. rewrite reading_not_zero.
  reflexivity.
Qed.

Lemma steady_step_trigger th i st n change :
  period_change (last_period st) v = Some change ->
  fge change th = true ->
  sweep_step th i st (repeat l (6 + n)) =
  Run (Returns {| last_period := SFdiv prec emax float_one v;
                  freq := freq st ++ [v]; ampl := ampl st ++ [v] |})
      (repeat l n) (steady_events l text i ++ aset_events l).
Proof.
  intros Hchange Hge. rewrite sweep_step_run. unfold step_run.
  replace (6 + n)%nat with (2 + (2 + (2 + n)))%nat by reflexivity.
  rewrite steady_get_freq. cbn [res rest trace].
  rewrite steady_get_ampl. cbn [res rest trace].
  rewrite Hchange, Hge. unfold truediv at 1. rewrite reading_not_zero.
  rewrite steady_aset. reflexivity.
Qed.

Lemma steady_quiet_loop th steps : forall st n change,
  period_change (last_period st) v = Some change ->
  fge change th = false ->
  sweep_loop th steps st (repeat l (4 * List.length steps + n)) =
  Run (Returns {| last_period := last_period st;
                  freq := freq st ++ repeat v (List.length steps);
                  ampl := ampl st ++ repeat v (List.length steps) |})
      (repeat l n) (flat_map (steady_events l text) steps).
Proof.
  induction steps as [|i later IH]; intros st n change Hchange Hge.
  - cbn. rewrite !app_nil_r. destruct st; reflexivity.
  - cbn [sweep_loop List.length]. rewrite bind_run.
    replace (4 * S (List.length later) + n)%nat
      with (4 + (4 * List.length later + n))%nat by lia.
    rewrite (steady_step_quiet th i st _ change Hchange Hge).
    cbn [res rest trace].
    rewrite (IH {| last_period := last_period st; freq := freq st ++ [v];
                   ampl := ampl st ++ [v] |} n change Hchange Hge).
    cbn [res rest trace last_period freq ampl flat_map repeat].
    rewrite <- !app_assoc. reflexivity.
Qed.

Lemma steady_sweep_run th steps st n :
  fgt th (S754_zero false) = true ->
  is_zero (last_period st) = false ->
  is_zero (SFdiv prec emax float_one v) = false ->
  let triggered :=
    match steps with
    | [] => false
    | _ :: _ => drift_exceeds th (last_period st) v
    end in
  sweep_loop th steps st (repeat l (4 * List.length steps + 2 + n)) =
  Run (Returns {| last_period :=
                    if triggered then SFdiv prec emax float_one v
                    else last_period st;
                  freq := freq st ++ repeat v (List.length steps);
                  ampl := ampl st ++ repeat v (List.length steps) |})
      (repeat l (if triggered then n else 2 + n))
      (steady_trace l text steps triggered).
Proof.
  intros Hth Hp Hcur triggered. subst triggered.
  destruct steps as [|i later].
  - cbn. rewrite !app_nil_r. destruct st; reflexivity.
  - assert (Hdef : exists change,
              period_change (last_period st) v = Some change).
    { unfold period_change, truediv. rewrite reading_not_zero, Hp.
      eexists. reflexivity. }
    destruct Hdef as (change & Hchange).
    unfold drift_exceeds. rewrite Hchange.
    cbn [sweep_loop List.length steady_trace]. rewrite bind_run.
    destruct (fge change th) eqn:Hge.
    + replace (4 * S (List.length later) + 2 + n)%nat
        with (6 + (4 * List.length later + n))%nat by lia.
      rewrite (steady_step_trigger th i st _ change Hchange Hge).
      cbn [res rest trace].
      destruct (period_settled th v Hth reading_not_zero Hcur)
        as (change' & Hchange' & Hge').
      rewrite (steady_quiet_loop th later
                 {| last_period := SFdiv prec emax float_one v;
                    freq := freq st ++ [v]; ampl := ampl st ++ [v] |}
                 n change' Hchange' Hge').
      cbn [res rest trace last_period freq ampl repeat].
      rewrite <- !app_assoc. reflexivity.
    + replace (4 * S (List.length later) + 2 + n)%nat
        with (4 + (4 * List.length later + (2 + n)))%nat by lia.
      rewrite (steady_step_quiet th i st _ change Hchange Hge).
      cbn [res rest trace].
      rewrite (steady_quiet_loop th later
                 {| last_period := last_period st;
                    freq := freq st ++ [v]; ampl := ampl st ++ [v] |}
                 (2 + n) change Hchange Hge).
      cbn [res rest trace last_period freq ampl repeat app].
      rewrite <- !app_assoc. reflexivity.
Qed.
End Steady.

(** X17. On a line whose every read gives the same well-formed response,
    with reading [v], the whole sweep goes through without a retry: each
    step costs four reads, records [v] as frequency and as amplitude, and
    autoset can run only once, after the first step, exactly when the
    drift rule fires against the starting reference period; from then on
    the reference period is [1.0 / v] and the rule cannot fire again. *)
Theorem steady_line_sweep (l : bytes) (text : str) (v th : float)
    (steps : list Z) (st : sweep_state) (n : nat) :
  l <> [] ->
  decode l = Some text ->
  parse_frequency (strip text) = Returns v ->
  is_zero v = false ->
  fgt th (S754_zero false) = true ->
  is_zero (last_period st) = false ->
  is_zero (SFdiv prec emax float_one v) = false ->
  let triggered :=
    match steps with
    | [] => false
    | _ :: _ => drift_exceeds th (last_period st) v
    end in
  sweep_loop th steps st (repeat l (4 * List.length steps + 2 + n)) =
  Run (Returns {| last_period :=
                    if triggered then SFdiv prec emax float_one v
                    else last_period st;
                  freq := freq st ++ repeat v (List.length steps);
                  ampl := ampl st ++ repeat v (List.length steps) |})
      (repeat l (if triggered then n else 2 + n))
      (steady_trace l text steps triggered).
Proof.
  intros Hl Hdec Hparse Hv Hth Hp Hcur.
  exact (steady_sweep_run l text v Hl Hdec Hparse Hv th steps st n
           Hth Hp Hcur).
Qed.

(** Two steps on the stub line, from a reference period of one second:
    autoset runs after the first step and not after the second. *)
Lemma steady_line_sweep_witness :
  let v := float_lit "10.00175E+3" in
  sweep_loop (float_lit "0.4") [10000; 9900]
    {| last_period := float_lit "1.0"; freq := []; ampl := [] |}
    (stub_rx 10) =
  Run (Returns {| last_period := SFdiv prec emax float_one v;
                  freq := [v; v]; ampl := [v; v] |})
      []
      (steady_trace stub_line (lit "C1:PAVA FREQ,10.00175E+3 HZ,AV" ++ [13])
         [10000; 9900] true).
Proof.
  pose proof (steady_line_sweep stub_line
                (lit "C1:PAVA FREQ,10.00175E+3 HZ,AV" ++ [13])
                (float_lit "10.00175E+3") (float_lit "0.4") [10000; 9900]
                {| last_period := float_lit "1.0"; freq := []; ampl := [] |}
                0%nat) as H.
  assert (Hdrift : drift_exceeds (float_lit "0.4") (float_lit "1.0")
                     (float_lit "10.00175E+3") = true)
    by (vm_compute; reflexivity).
  cbv zeta in H. cbn [last_period] in H. rewrite Hdrift in H.
  apply H.
  - discriminate.
  - vm_compute. reflexivity.
  - vm_compute. reflexivity.
  - vm_compute. reflexivity.
  - vm_compute. reflexivity.
  - vm_compute. reflexivity.
  - vm_compute. reflexivity.
Defined.

(** ** The whole run on a steady line *)

(** X18. The run of [main] on a steady line with reading [v]: with at
    least 364 reads available it returns, after the first autoset and the
    90 steps of the sweep, and plots [v] 90 times on each axis; it uses
    362 reads, or 364 when the first reading sets off a second autoset. *)
Theorem main_on_steady_line (l : bytes) (text : str) (v : float) (n : nat) :
  l <> [] ->
  decode l = Some text ->
  parse_frequency (strip text) = Returns v ->
  is_zero v = false ->
  is_zero (SFdiv prec emax float_one v) = false ->
  let r := main (repeat l (364 + n)) in
  res r = Returns tt /\
  rest r =
    repeat l (if drift_exceeds (float_lit "0.4") (float_lit "0.0001") v
              then n else 2 + n) /\
  trace r =
    [SerialOpen; GenOpen; GenConnect; GenSetFrequency 2 5000;
     GenSetFrequency 2 10000]
      ++ aset_events l
      ++ steady_trace l text (range 10000 1000 (- (100)))
           (drift_exceeds (float_lit "0.4") (float_lit "0.0001") v)
      ++ [Plot (repeat v 90) (repeat v 90); PlotYlim0;
          PlotYlabel "ampl"; PlotXlabel "freq"; PlotShow].
Proof.
  intros Hl Hdec Hparse Hv Hcur r. subst r.
  rewrite main_run_shape. unfold main_run.
  replace (364 + n)%nat with (2 + (362 + n))%nat by reflexivity.
  rewrite <- send_aset_run, (steady_aset l text Hdec).
  cbv zeta. cbn [res rest trace].
  assert (Hlen : List.length (range 10000 1000 (- (100))) = 90%nat)
    by (vm_compute; reflexivity).
  assert (Hth : fgt (float_lit "0.4") (S754_zero false) = true)
    by (vm_compute; reflexivity).
  assert (Hlp : is_zero (float_lit "0.0001") = false)
    by (vm_compute; reflexivity).
  revert Hlen Hth Hlp.
  generalize (range 10000 1000 (- (100))) as steps.
  generalize (float_lit "0.4") as th.
  generalize (float_lit "0.0001") as lp.
  intros lp th steps Hlen Hth Hlp.
  replace (362 + n)%nat with (4 * List.length steps + 2 + n)%nat
    by (rewrite Hlen; reflexivity).
  rewrite (steady_sweep_run l text v Hl Hdec Hparse Hv th steps
             {| last_period := lp; freq := []; ampl := [] |} n Hth Hlp Hcur).
  cbn [res rest trace last_period freq ampl app]. rewrite Hlen.
  destruct steps as [|i later]; [discriminate|].
  split; [reflexivity|]. split; reflexivity.
Qed.

(** The stub line: the first reading is within the threshold of the
    starting period, so autoset runs only once, before the sweep. *)
Lemma main_on_steady_line_witness :
  let r := main (stub_rx 364) in
  let v := float_lit "10.00175E+3" in
  res r = Returns tt /\
  rest r = [stub_line; stub_line] /\
  trace r =
    [SerialOpen; GenOpen; GenConnect; GenSetFrequency 2 5000;
     GenSetFrequency 2 10000]
      ++ aset_events stub_line
      ++ steady_trace stub_line (lit "C1:PAVA FREQ,10.00175E+3 HZ,AV" ++ [13])
           (range 10000 1000 (- (100))) false
      ++ [Plot (repeat v 90) (repeat v 90); PlotYlim0;
          PlotYlabel "ampl"; PlotXlabel "freq"; PlotShow].
Proof.
  pose proof (main_on_steady_line stub_line
                (lit "C1:PAVA FREQ,10.00175E+3 HZ,AV" ++ [13])
                (float_lit "10.00175E+3") 0%nat) as H.
  assert (Hdrift : drift_exceeds (float_lit "0.4") (float_lit "0.0001")
                     (float_lit "10.00175E+3") = false)
    by (vm_compute; reflexivity).
  cbv zeta in H. rewrite Hdrift in H.
  apply H.
  - discriminate.
  - vm_compute. reflexivity.
  - vm_compute. reflexivity.
  - vm_compute. reflexivity.
  - vm_compute. reflexivity.
Defined.
